(** * Square-matrix lab program: a shallow embedding of [main.cpp]

    The C++ program works on [std::vector<std::vector<int>>].  The embedding
    keeps that shape: a matrix is a list of rows, a row is a list of [int]
    values, and every access [v[i]] is a bounds-sensitive operation whose
    result is undefined when [i] is outside the vector.

    Conventions of the model.
    - [int] is the 32-bit two's-complement integer; [+] and [*] on [int]
      are modelled with their wrap-around written out ([wrap_int]), the
      result they have on the two's-complement targets the program is
      built for.  [long long] is the 64-bit one ([wrap_llong]).
    - Vector sizes and loop counters ([int i = 0; i < n; ++i]) are natural
      numbers; the conversion [int n = v.size()] is taken to be exact.
      Indices that arrive as function arguments are arbitrary [int]s and
      are modelled in [Z].
    - Allocation never fails.
    - [std::cout] and [std::cerr] are a log of lines, each a list of the
      chunks streamed with [<<].
    - The file system is a function from file names to token streams, and
      the word that [std::cin >> filename] extracts is an argument of
      [main]. *)

From Stdlib Require Import ZArith String List Lia.
From stdpp Require Import base option list.

Local Open Scope string_scope.
Local Open Scope list_scope.

(** ** Machine integers *)

Definition int_min : Z := (-2147483648)%Z.
Definition int_max : Z := 2147483647%Z.

Definition is_int (z : Z) : Prop := (int_min <= z <= int_max)%Z.

(** Reduction of a mathematical integer to the value an [int] holds. *)
Definition wrap_int (z : Z) : Z :=
  ((z + 2147483648) mod 4294967296 - 2147483648)%Z.

Definition int_add (a b : Z) : Z := wrap_int (a + b).
Definition int_mul (a b : Z) : Z := wrap_int (a * b).

Definition llong_min : Z := (-9223372036854775808)%Z.
Definition llong_max : Z := 9223372036854775807%Z.

Definition wrap_llong (z : Z) : Z :=
  ((z + 9223372036854775808) mod 18446744073709551616 - 9223372036854775808)%Z.

(** [acc += x] for a [long long] accumulator and an [int] operand: the
    operand is promoted, the addition is done at 64 bits. *)
Definition llong_add (acc x : Z) : Z := wrap_llong (acc + x).

(** ** Outcomes of a computation *)

(** [std::runtime_error(what)]. *)
Inductive exn : Type :=
  | runtime_error (what : string).

(** A computation finishes normally with a value, leaves abruptly carrying
    [e] (a thrown exception, or a [return] from inside a loop nest), or has
    undefined behaviour (an access outside a vector). *)
Inductive outcome (E A : Type) : Type :=
  | Ok (a : A)
  | Raise (e : E)
  | Undefined.

Arguments Ok {E A} a.
Arguments Raise {E A} e.
Arguments Undefined {E A}.

Definition bind {E A B} (m : outcome E A) (k : A -> outcome E B) : outcome E B :=
  match m with
  | Ok a => k a
  | Raise e => Raise e
  | Undefined => Undefined
  end.

Notation "'let*' x := m 'in' k" := (bind m (fun x => k))
  (at level 10, x name, m at level 200, k at level 200).

(** ** Vectors and loops *)

(** [using Matrix = std::vector<std::vector<int>>]. *)
Abbreviation Matrix := (list (list Z)).

(** [v[i]] as an rvalue. *)
Definition vat {E A} (v : list A) (i : nat) : outcome E A :=
  match v !! i with
  | Some x => Ok x
  | None => Undefined
  end.

(** [v[i] = x]. *)
Definition vset {E A} (v : list A) (i : nat) (x : A) : outcome E (list A) :=
  if decide (i < length v) then Ok (<[i := x]> v) else Undefined.

(** [m[i][j]] as an rvalue. *)
Definition mat_at {E} (m : Matrix) (i j : nat) : outcome E Z :=
  let* row := vat m i in vat row j.

(** [m[i][j] = x]. *)
Definition mat_set {E} (m : Matrix) (i j : nat) (x : Z) : outcome E Matrix :=
  let* row := vat m i in
  let* row' := vset row j x in
  vset m i row'.

(** [for (int i = lo; i < lo + cnt; ++i) body], threading the variables the
    body assigns. *)
Fixpoint for_ {E St} (lo cnt : nat) (body : nat -> St -> outcome E St) (s : St)
  : outcome E St :=
  match cnt with
  | O => Ok s
  | S cnt' => let* s' := body lo s in for_ (S lo) cnt' body s'
  end.

(** ** Matrix arithmetic *)

Definition add_error : exn :=
  runtime_error "Matrix dimensions must match for addition".

Definition addMatrices (matrixA matrixB : Matrix) : outcome exn Matrix :=
  if bool_decide (matrixA = []) then Raise add_error
  else if bool_decide (length matrixA <> length matrixB) then Raise add_error
  else
    let* a0 := vat matrixA 0 in
    let* b0 := vat matrixB 0 in
    if bool_decide (length a0 <> length b0) then Raise add_error
    else
      let n := length matrixA in
      let result := replicate n (replicate n 0%Z) in
      for_ 0 n (fun i result =>
        for_ 0 n (fun j result =>
          let* a := mat_at matrixA i j in
          let* b := mat_at matrixB i j in
          mat_set result i j (int_add a b)) result) result.

Definition multiply_error : exn :=
  runtime_error
    "Matrix dimensions incompatible for multiplication (A's cols must equal B's rows)".

Definition multiplyMatrices (matrixA matrixB : Matrix) : outcome exn Matrix :=
  if bool_decide (matrixA = []) then Raise multiply_error
  else
    let* a0 := vat matrixA 0 in
    if bool_decide (length a0 <> length matrixB) then Raise multiply_error
    else
      let n := length matrixA in
      let* b0 := vat matrixB 0 in
      let m := length b0 in
      let p := length matrixB in
      let result := replicate n (replicate m 0%Z) in
      for_ 0 n (fun i result =>
        for_ 0 m (fun j result =>
          for_ 0 p (fun k result =>
            let* r := mat_at result i j in
            let* a := mat_at matrixA i k in
            let* b := mat_at matrixB k j in
            mat_set result i j (int_add r (int_mul a b))) result) result) result.

(** ** Console output *)

(** One operand of [<<]. *)
Inductive chunk : Type :=
  | Str (s : string)
  | Int (z : Z).

(** One line written to a stream and ended by [std::endl]. *)
Inductive line : Type :=
  | cout (l : list chunk)
  | cerr (l : list chunk).

(** [v[i]] and [v[i] = x] for an index held in an [int]: a negative index
    converts to a huge [size_t] and is outside every vector. *)
Definition vatZ {E A} (v : list A) (i : Z) : outcome E A :=
  if (i <? 0)%Z then Undefined else vat v (Z.to_nat i).

Definition vsetZ {E A} (v : list A) (i : Z) (x : A) : outcome E (list A) :=
  if (i <? 0)%Z then Undefined else vset v (Z.to_nat i) x.

(** ** Diagonal sums *)

Definition not_square : line :=
  cerr [Str "Error: Matrix must be square to calculate diagonals"].

Definition sumDiagonals (matrix : Matrix) : outcome exn (list line) :=
  if bool_decide (matrix = []) then Ok [not_square]
  else
    let* row0 := vat matrix 0 in
    if bool_decide (length matrix <> length row0) then Ok [not_square]
    else
      let n := length matrix in
      let* sums :=
        for_ 0 n (fun i sums =>
          let* d := mat_at matrix i i in
          let mainDiagonalSum := llong_add (fst sums) d in
          let* row := vat matrix i in
          let* s := vatZ row (Z.of_nat n - 1 - Z.of_nat i) in
          let secondaryDiagonalSum := llong_add (snd sums) s in
          Ok (mainDiagonalSum, secondaryDiagonalSum)) (0%Z, 0%Z) in
      Ok [cout [Str "Sum of main diagonal elements: "; Int (fst sums)];
          cout [Str "Sum of secondary diagonal elements: "; Int (snd sums)]].

(** ** In-place mutators

    Each takes the matrix the reference designates and returns the matrix
    it designates afterwards, with the lines written. *)

Definition swapRows (matrix : Matrix) (row1 row2 : Z)
  : outcome exn (Matrix * list line) :=
  if bool_decide (matrix = []) then
    Ok (matrix, [cerr [Str "Error: Cannot swap rows in an empty matrix"]])
  else
    let n := Z.of_nat (length matrix) in
    if ((row1 <? 0) || (row1 >=? n) || (row2 <? 0) || (row2 >=? n))%Z then
      Ok (matrix,
          [cerr [Str "Error: Row index out of bounds ("; Int row1; Str ", ";
                 Int row2; Str "). Valid range is 0 to "; Int (n - 1)]])
    else if (row1 =? row2)%Z then Ok (matrix, [])
    else
      (* std::swap(matrix[row1], matrix[row2]) *)
      let* r1 := vatZ matrix row1 in
      let* r2 := vatZ matrix row2 in
      let* matrix := vsetZ matrix row1 r2 in
      let* matrix := vsetZ matrix row2 r1 in
      Ok (matrix, []).

Definition swapCols (matrix : Matrix) (col1 col2 : Z)
  : outcome exn (Matrix * list line) :=
  let empty := [cerr [Str "Error: Cannot swap columns in an empty matrix"]] in
  if bool_decide (matrix = []) then Ok (matrix, empty)
  else
    let* row0 := vat matrix 0 in
    if bool_decide (row0 = []) then Ok (matrix, empty)
    else
      let n := length matrix in
      let m := Z.of_nat (length row0) in
      if ((col1 <? 0) || (col1 >=? m) || (col2 <? 0) || (col2 >=? m))%Z then
        Ok (matrix,
            [cerr [Str "Error: Column index out of bounds ("; Int col1; Str ", ";
                   Int col2; Str "). Valid range is 0 to "; Int (m - 1)]])
      else if (col1 =? col2)%Z then Ok (matrix, [])
      else
        let* matrix :=
          for_ 0 n (fun i matrix =>
            (* std::swap(matrix[i][col1], matrix[i][col2]) *)
            let* row := vat matrix i in
            let* x1 := vatZ row col1 in
            let* x2 := vatZ row col2 in
            let* row := vsetZ row col1 x2 in
            let* row := vsetZ row col2 x1 in
            vset matrix i row) matrix in
        Ok (matrix, []).

Definition updateElement (matrix : Matrix) (row col newValue : Z)
  : outcome exn (Matrix * list line) :=
  if bool_decide (matrix = []) then
    Ok (matrix, [cerr [Str "Error: Cannot update element in an empty matrix"]])
  else
    let* row0 := vat matrix 0 in
    if bool_decide (row0 = []) then
      Ok (matrix, [cerr [Str "Error: Cannot update element in an empty matrix"]])
    else
      let n := Z.of_nat (length matrix) in
      let m := Z.of_nat (length row0) in
      if ((row <? 0) || (row >=? n) || (col <? 0) || (col >=? m))%Z then
        Ok (matrix,
            [cerr [Str "Error: Index ("; Int row; Str ", "; Int col;
                   Str ") out of bounds. Valid row range 0 to "; Int (n - 1);
                   Str ", valid col range 0 to "; Int (m - 1)]])
      else
        (* matrix[row][col] = newValue *)
        let* r := vatZ matrix row in
        let* r := vsetZ r col newValue in
        let* matrix := vsetZ matrix row r in
        Ok (matrix, []).

(** ** The loader *)

(** What a formatted extraction [inFile >> x] meets after skipping white
    space: the text of an integer of value [z], or text that is not an
    integer.  The end of the list is the end of the file. *)
Inductive token : Type :=
  | Tnum (z : Z)
  | Tword.

Definition ifstream : Type := list token.

(** [inFile >> x] for an [int] variable [x] holding [old]: whether the
    stream is still good, the value [x] holds afterwards, and the rest of
    the stream.  At the end of the file [x] is not touched; text that is
    not an integer stores 0; an integer outside [int] stores the nearest
    bound; those three set [failbit]. *)
Definition extract (inFile : ifstream) (old : Z) : bool * Z * ifstream :=
  match inFile with
  | [] => (false, old, [])
  | Tword :: _ => (false, 0%Z, inFile)
  | Tnum z :: rest =>
      if (z <? int_min)%Z then (false, int_min, rest)
      else if (int_max <? z)%Z then (false, int_max, rest)
      else (true, z, rest)
  end.

(** [v.resize(n, x)]. *)
Definition vresize {A} (v : list A) (n : nat) (x : A) : list A :=
  take n v ++ replicate (n - length v) x.

(** The statement
    [if (!(inFile >> matrix[i][j])) { std::cerr << ...; return false; }]
    of the two reading loops; [name] is ["A"] or ["B"].  The early return
    carries the matrix as the failed extraction left it. *)
Definition read_element (name : string) (i j : nat) (st : Matrix * ifstream)
  : outcome (Matrix * line) (Matrix * ifstream) :=
  let* old := mat_at (fst st) i j in
  let r := extract (snd st) old in
  let* matrix := mat_set (fst st) i j (snd (fst r)) in
  if fst (fst r) then Ok (matrix, snd r)
  else
    Raise (matrix,
           cerr [Str "Error: Failed to read element for Matrix "; Str name;
                 Str " at ["; Int (Z.of_nat i); Str "]["; Int (Z.of_nat j);
                 Str "]"]).

(** What the caller observes after [loadMatrices]: the returned flag, the
    three reference arguments, and the lines written. *)
Record loaded : Type := Loaded {
  success : bool;
  loadedA : Matrix;
  loadedB : Matrix;
  loadedN : Z;
  messages : list line
}.

(** [fs] gives the content of the file a name designates, if it can be
    opened. *)
Definition loadMatrices (fs : string -> option ifstream) (filename : string)
    (matrixA matrixB : Matrix) (n : Z) : outcome exn loaded :=
  match fs filename with
  | None =>
      Ok (Loaded false matrixA matrixB n
            [cerr [Str "Error: Could not open file "; Str filename]])
  | Some inFile =>
      let r := extract inFile n in
      let n := snd (fst r) in
      let inFile := snd r in
      if negb (fst (fst r)) || (n <=? 0)%Z then
        Ok (Loaded false matrixA matrixB n
              [cerr [Str "Error: Invalid or missing matrix size N in file"]])
      else
        let matrixA := vresize matrixA (Z.to_nat n) (replicate (Z.to_nat n) 0%Z) in
        let matrixB := vresize matrixB (Z.to_nat n) (replicate (Z.to_nat n) 0%Z) in
        match
          for_ 0 (Z.to_nat n) (fun i st =>
            for_ 0 (Z.to_nat n) (fun j st => read_element "A" i j st) st)
            (matrixA, inFile)
        with
        | Undefined => Undefined
        | Raise (matrixA, msg) => Ok (Loaded false matrixA matrixB n [msg])
        | Ok (matrixA, inFile) =>
            match
              for_ 0 (Z.to_nat n) (fun i st =>
                for_ 0 (Z.to_nat n) (fun j st => read_element "B" i j st) st)
                (matrixB, inFile)
            with
            | Undefined => Undefined
            | Raise (matrixB, msg) => Ok (Loaded false matrixA matrixB n [msg])
            | Ok (matrixB, _) => Ok (Loaded true matrixA matrixB n [])
            end
        end
  end.

(** ** Specification vocabulary *)

(** [post o P Q U]: [P] holds of the value of a normal outcome, [Q] of what
    an abrupt one carries, and [U] is what is known when the behaviour is
    undefined. *)
Definition post {E A} (o : outcome E A) (P : A -> Prop) (Q : E -> Prop) (U : Prop)
  : Prop :=
  match o with
  | Ok a => P a
  | Raise e => Q e
  | Undefined => U
  end.

(** Dimensions the way the code measures them: the height is the number
    of rows, the width is the length of the first row. *)
Definition height (m : Matrix) : nat := length m.

Definition width (m : Matrix) : nat :=
  match m with
  | [] => 0
  | row0 :: _ => length row0
  end.

(** [m] has [n] rows, each of length [w]. *)
Definition shape (m : Matrix) (n w : nat) : Prop :=
  length m = n /\ Forall (fun row => length row = w) m.

(** The data model's invariant: all rows are as long as the first. *)
Definition rectangular (m : Matrix) : Prop := shape m (height m) (width m).

(** The element at row [i], column [j], if there is one. *)
Definition elem (m : Matrix) (i j : nat) : option Z :=
  match m !! i with
  | Some row => row !! j
  | None => None
  end.

(** The same for positions known to exist. *)
Definition entry (m : Matrix) (i j : nat) : Z := default 0%Z (elem m i j).

(** Every element is a value of type [int]. *)
Definition int_matrix (m : Matrix) : Prop :=
  forall i j x, elem m i j = Some x -> is_int x.

(** [sumZ n f] is [f 0 + f 1 + ... + f (n - 1)] over the integers. *)
Fixpoint sumZ (n : nat) (f : nat -> Z) : Z :=
  match n with
  | O => 0%Z
  | S k => (sumZ k f + f k)%Z
  end.

(** The matrix [m] is [n] by [w] and holds [f i j] at every position. *)
Definition agrees (m : Matrix) (n w : nat) (f : nat -> nat -> Z) : Prop :=
  shape m n w /\ forall i j, i < n -> j < w -> elem m i j = Some (f i j).

(** The mathematical inner product of row [i] of [a] and column [j] of
    [b], over the first [p] positions. *)
Definition dot (a b : Matrix) (i j p : nat) : Z :=
  sumZ p (fun k => entry a i k * entry b k j)%Z.

(** The same inner product the way the innermost loop accumulates it:
    from zero, one [int] product added per step, in [int] arithmetic. *)
Fixpoint int_dot (a b : Matrix) (i j p : nat) : Z :=
  match p with
  | O => 0%Z
  | S k => int_add (int_dot a b i j k) (int_mul (entry a i k) (entry b k j))
  end.

(** The innermost statement of [multiplyMatrices],
    [result[i][j] += A[i][k] * B[k][j]]. *)
Definition accumulate (A B : Matrix) (i j k : nat) (result : Matrix)
  : outcome exn Matrix :=
  let* r := mat_at result i j in
  let* a := mat_at A i k in
  let* b := mat_at B k j in
  mat_set result i j (int_add r (int_mul a b)).

(** Content of [result] on entry to iteration [(i, j, k)] of the three
    loops of [multiplyMatrices]: positions before [(i, j)] in row-major
    order are finished, position [(i, j)] holds the first [k] terms, the
    rest is still zero. *)
Definition partial (A B : Matrix) (p i j k : nat) : nat -> nat -> Z :=
  fun i' j' =>
    if decide (i' < i \/ (i' = i /\ j' < j)) then wrap_int (dot A B i' j' p)
    else if decide (i' = i /\ j' = j) then wrap_int (dot A B i j k)
    else 0%Z.

(** The outcome is not an abrupt exit. *)
Definition no_raise {E A} (o : outcome E A) : Prop :=
  post o (fun _ => True) (fun _ => False) True.

(** Content of [result] on entry to iteration [(i, j)] of the two loops of
    [addMatrices]: positions before [(i, j)] in row-major order hold their
    sum, the rest is still zero. *)
Definition filled (A B : Matrix) (i j : nat) : nat -> nat -> Z :=
  fun i' j' =>
    if decide (i' < i \/ (i' = i /\ j' < j))
    then int_add (entry A i' j') (entry B i' j')
    else 0%Z.

(** A row after [std::swap(row[c1], row[c2])]. *)
Definition swapped (c1 c2 : nat) (row : list Z) : list Z :=
  match row !! c1, row !! c2 with
  | Some x1, Some x2 => <[c2 := x1]> (<[c1 := x2]> row)
  | _, _ => row
  end.

(** The first [k] tokens of a stream when they are all integers of type
    [int], with what follows them. *)
Fixpoint take_ints (k : nat) (s : ifstream) : option (list Z * ifstream) :=
  match k with
  | O => Some ([], s)
  | S k' =>
      match s with
      | Tnum z :: rest =>
          if ((z <? int_min) || (int_max <? z))%Z then None
          else
            match take_ints k' rest with
            | Some (vals, s') => Some (z :: vals, s')
            | None => None
            end
      | _ => None
      end
  end.

(** While the reading loops run: [c] values have been taken from the
    stream [s0] and stored row-major in the [n] by [n] matrix. *)
Definition reading (n : nat) (s0 : ifstream) (c : nat) (st : Matrix * ifstream)
  : Prop :=
  exists vals,
    take_ints c s0 = Some (vals, snd st) /\
    shape (fst st) n n /\
    forall i j, i < n -> j < n -> i * n + j < c ->
      elem (fst st) i j = vals !! (i * n + j).

(** What [loadMatrices] leaves behind, in terms of the stream [s] that
    follows the size [n]: on success, two row-major [n] by [n] blocks of
    [int] values were taken from [s]; on failure, [s] does not start with
    two such blocks. *)
Definition load_result (n : nat) (s : ifstream) (r : loaded) : Prop :=
  if success r then
    exists valsA s1 valsB s2,
      take_ints (n * n) s = Some (valsA, s1) /\
      take_ints (n * n) s1 = Some (valsB, s2) /\
      shape (loadedA r) n n /\ shape (loadedB r) n n /\
      (forall i j, i < n -> j < n -> elem (loadedA r) i j = valsA !! (i * n + j)) /\
      (forall i j, i < n -> j < n -> elem (loadedB r) i j = valsB !! (i * n + j)) /\
      loadedN r = Z.of_nat n /\ messages r = []
  else
    take_ints (n * n) s = None \/
    exists valsA s1, take_ints (n * n) s = Some (valsA, s1) /\
                     take_ints (n * n) s1 = None.

(** ** Printing and the program *)

(** What [printMatrix] and [main] write, in the order written: a line
    ended by [std::endl]; text streamed to [std::cout] that no [std::endl]
    follows; a row of integers streamed to [std::cout], each after
    [std::setw(w)], and ended by [std::endl]. *)
Inductive event : Type :=
  | Line (l : line)
  | Text (s : string)
  | Fields (w : Z) (vals : list Z).

Definition printMatrix (matrix : Matrix) (label : string)
  : outcome exn (list event) :=
  let out := [Line (cout [Str label])] in
  if bool_decide (matrix = []) then Ok (out ++ [Line (cout [Str "[Empty Matrix]"])])
  else
    let* row0 := vat matrix 0 in
    if bool_decide (row0 = []) then Ok (out ++ [Line (cout [Str "[Empty Matrix]"])])
    else
      let n := length matrix in
      let fieldWidth := 6%Z in
      let* out :=
        for_ 0 n (fun i out =>
          let* cells :=
            for_ 0 n (fun j cells =>
              let* x := mat_at matrix i j in
              Ok (cells ++ [x])) [] in
          Ok (out ++ [Fields fieldWidth cells])) out in
      Ok (out ++ [Line (cout [])]).

(** The line feed that starts the section titles of [main]. *)
Definition nl : string := String (Ascii.ascii_of_nat 10) EmptyString.

(** [main], given the file system and the word [std::cin >> filename]
    extracts: the value returned and what was written.  An exception that
    leaves [addMatrices] or [multiplyMatrices] is not caught. *)
Definition main (fs : string -> option ifstream) (filename : string)
  : outcome exn (Z * list event) :=
  let matrixA : Matrix := [] in
  let matrixB : Matrix := [] in
  let n := 0%Z in
  let out := [Text "Enter the input filename: "] in
  let* r := loadMatrices fs filename matrixA matrixB n in
  let out := out ++ map Line (messages r) in
  if negb (success r) then
    Ok (1%Z,
        out ++ [Line (cerr [Str "Error loading matrices from file: "; Str filename])])
  else
    let matrixA := loadedA r in
    let matrixB := loadedB r in
    let out := out ++ [Line (cout [Str (String.append nl "Matrices loaded")])] in
    let* p := printMatrix matrixA "Matrix A:" in
    let out := out ++ p in
    let* p := printMatrix matrixB "Matrix B:" in
    let out := out ++ p in
    let out := out ++ [Line (cout [Str (String.append nl "Matrix Addition")])] in
    let* sumMatrix := addMatrices matrixA matrixB in
    let* p := printMatrix sumMatrix "Result (A + B):" in
    let out := out ++ p in
    let out := out ++ [Line (cout [Str (String.append nl "Matrix Multiplication")])] in
    let* productMatrix := multiplyMatrices matrixA matrixB in
    let* p := printMatrix productMatrix "Result (A * B):" in
    let out := out ++ p in
    let out := out ++ [Line (cout [Str (String.append nl "Diagonal Sums (Matrix A)")])] in
    let* d := sumDiagonals matrixA in
    let out := out ++ map Line d in
    let out :=
      out ++ [Line (cout [Str (String.append nl "Swapping Rows 0 and 1 of Matrix A")])] in
    let matrixA_copy_rows := matrixA in
    let* s := swapRows matrixA_copy_rows 0 1 in
    let out := out ++ map Line (snd s) in
    let* p := printMatrix (fst s) "Matrix A after row swap:" in
    let out := out ++ p in
    let out :=
      out ++ [Line (cout [Str (String.append nl "Swapping Columns 1 and 2 of Matrix B")])] in
    let matrixB_copy_cols := matrixB in
    let* s := swapCols matrixB_copy_cols 1 2 in
    let out := out ++ map Line (snd s) in
    let* p := printMatrix (fst s) "Matrix B after column swap:" in
    let out := out ++ p in
    let out :=
      out ++ [Line (cout [Str (String.append nl "Updating Element (2, 2) in Matrix A to 99")])] in
    let matrixA_copy_update := matrixA in
    let* s := updateElement matrixA_copy_update 2 2 99 in
    let out := out ++ map Line (snd s) in
    let* p := printMatrix (fst s) "Matrix A after update:" in
    let out := out ++ p in
    Ok (0%Z, out).

(** The [n] by [n] identity matrix. *)
Definition identityMatrix (n : nat) : Matrix :=
  (fun i => (fun j => if decide (i = j) then 1%Z else 0%Z) <$> seq 0 n) <$> seq 0 n.

(** The diagnostic of the reading loops for matrix [name] at [(i, j)]. *)
Definition read_error (name : string) (i j : nat) : line :=
  cerr [Str "Error: Failed to read element for Matrix "; Str name;
        Str " at ["; Int (Z.of_nat i); Str "]["; Int (Z.of_nat j); Str "]"].

(** The stream [s] starts with exactly [c] integers of type [int]: what
    follows them is the end of the file, text that is not an integer, or
    an integer outside [int]. *)
Definition stops_after (s : ifstream) (c : nat) : Prop :=
  (exists vals s', take_ints c s = Some (vals, s')) /\ take_ints (S c) s = None.

(** The early return of the reading loops for matrix [name]: the stream
    [s0] stops after [i * n + j] values and the diagnostic names [(i, j)]. *)
Definition reading_fails (name : string) (n : nat) (s0 : ifstream)
    (e : Matrix * line) : Prop :=
  exists i j, i < n /\ j < n /\ stops_after s0 (i * n + j) /\
              snd e = read_error name i j.

(** What [loadMatrices] returns when it is called with empty matrices on a
    file that starts with the size [n >= 1] followed by the stream [s]. *)
Definition load_report (n : nat) (s : ifstream) (r : loaded) : Prop :=
  loadedN r = Z.of_nat n /\
  if success r then
    messages r = [] /\
    exists valsA s1 valsB s2,
      take_ints (n * n) s = Some (valsA, s1) /\
      take_ints (n * n) s1 = Some (valsB, s2) /\
      shape (loadedA r) n n /\ shape (loadedB r) n n /\
      (forall i j, i < n -> j < n -> elem (loadedA r) i j = valsA !! (i * n + j)) /\
      (forall i j, i < n -> j < n -> elem (loadedB r) i j = valsB !! (i * n + j))
  else
    (exists i j, i < n /\ j < n /\ stops_after s (i * n + j) /\
                 messages r = [read_error "A" i j]) \/
    (exists valsA s1 i j,
       take_ints (n * n) s = Some (valsA, s1) /\
       shape (loadedA r) n n /\
       (forall i j, i < n -> j < n -> elem (loadedA r) i j = valsA !! (i * n + j)) /\
       i < n /\ j < n /\ stops_after s1 (i * n + j) /\
       messages r = [read_error "B" i j]).

(** What [printMatrix] writes for a square matrix: the label, one line of
    fields of width 6 per row, an empty line. *)
Definition printed (label : string) (M : Matrix) : list event :=
  [Line (cout [Str label])] ++ (Fields 6 <$> M) ++ [Line (cout [])].

(** A section title of [main]: a line that starts with a line feed. *)
Definition title (s : string) : event := Line (cout [Str (String.append nl s)]).

(** * Properties *)

(** ** Machine arithmetic *)

Lemma wrap_int_id (z : Z) : is_int z -> wrap_int z = z.
Proof.
  unfold is_int, int_min, int_max, wrap_int. intros Hz.
  rewrite Z.mod_small; lia.
Qed.

Lemma wrap_int_add_r (a b : Z) : wrap_int (a + wrap_int b) = wrap_int (a + b).
Proof.
  unfold wrap_int.
  replace (a + ((b + 2147483648) mod 4294967296 - 2147483648) + 2147483648)%Z
    with (a + (b + 2147483648) mod 4294967296)%Z by lia.
  rewrite Zplus_mod_idemp_r. do 2 f_equal. lia.
Qed.

Lemma wrap_int_add_l (a b : Z) : wrap_int (wrap_int a + b) = wrap_int (a + b).
Proof. rewrite Z.add_comm, wrap_int_add_r. f_equal. lia. Qed.

Lemma int_add_mul (r a b : Z) : int_add r (int_mul a b) = wrap_int (r + a * b).
Proof. unfold int_add, int_mul. apply wrap_int_add_r. Qed.

Lemma wrap_llong_id (z : Z) :
  (llong_min <= z <= llong_max)%Z -> wrap_llong z = z.
Proof.
  unfold llong_min, llong_max, wrap_llong. intros Hz.
  rewrite Z.mod_small; lia.
Qed.

(** ** A Hoare rule for outcomes and loops *)

Lemma post_bind {E A B} (m : outcome E A) (k : A -> outcome E B)
    (P : A -> Prop) (R : B -> Prop) (Q : E -> Prop) (U : Prop) :
  post m P Q U ->
  (forall a, P a -> post (k a) R Q U) ->
  post (bind m k) R Q U.
Proof. destruct m; simpl; auto. Qed.

Lemma post_mono {E A} (o : outcome E A) (P P' : A -> Prop) (Q Q' : E -> Prop)
    (U U' : Prop) :
  post o P Q U ->
  (forall a, P a -> P' a) -> (forall e, Q e -> Q' e) -> (U -> U') ->
  post o P' Q' U'.
Proof. destruct o; simpl; auto. Qed.

Lemma post_ok {E A} (o : outcome E A) (P : A -> Prop) :
  post o P (fun _ => False) False <-> exists a, o = Ok a /\ P a.
Proof.
  destruct o; simpl; split; try tauto; eauto.
  - intros (a' & [= <-] & H). exact H.
  - intros (a' & [=] & _).
  - intros (a' & [=] & _).
Qed.

(** Invariant rule: [Inv i] holds on entry to iteration [i]. *)
Lemma for_post {E St} (Inv : nat -> St -> Prop) (Q : E -> Prop) (U : Prop)
    (body : nat -> St -> outcome E St) (cnt : nat) :
  forall lo s,
    Inv lo s ->
    (forall i s, lo <= i < lo + cnt -> Inv i s -> post (body i s) (Inv (S i)) Q U) ->
    post (for_ lo cnt body s) (Inv (lo + cnt)) Q U.
Proof.
  induction cnt as [|cnt IH]; intros lo s Hs Hbody; simpl.
  - rewrite Nat.add_0_r. exact Hs.
  - apply post_bind with (P := Inv (S lo)).
    + apply Hbody; [lia | exact Hs].
    + intros s' Hs'. replace (lo + S cnt) with (S lo + cnt) by lia.
      apply IH; [exact Hs' |]. intros i s'' Hi. apply Hbody. lia.
Qed.

Lemma for_ok {E St} (Inv : nat -> St -> Prop)
    (body : nat -> St -> outcome E St) (cnt lo : nat) (s : St) :
  Inv lo s ->
  (forall i s, lo <= i < lo + cnt -> Inv i s ->
     exists s', body i s = Ok s' /\ Inv (S i) s') ->
  exists s', for_ lo cnt body s = Ok s' /\ Inv (lo + cnt) s'.
Proof.
  intros Hs Hbody. apply post_ok. apply for_post; [exact Hs |].
  intros i s' Hi Hinv. apply post_ok. auto.
Qed.

(** ** Vectors of vectors *)

Lemma shape_row (m : Matrix) (n w i : nat) (row : list Z) :
  shape m n w -> m !! i = Some row -> length row = w.
Proof.
  intros [_ Hall] Hrow. rewrite Forall_lookup in Hall. exact (Hall i row Hrow).
Qed.

Lemma shape_lookup (m : Matrix) (n w i : nat) :
  shape m n w -> i < n -> exists row, m !! i = Some row /\ length row = w.
Proof.
  intros Hm Hi. destruct (lookup_lt_is_Some_2 m i) as [row Hrow].
  - destruct Hm as [-> _]. exact Hi.
  - exists row. split; [exact Hrow | eapply shape_row; eauto].
Qed.

Lemma shape_elem (m : Matrix) (n w i j : nat) :
  shape m n w -> i < n -> j < w -> exists x, elem m i j = Some x.
Proof.
  intros Hm Hi Hj. destruct (shape_lookup m n w i Hm Hi) as (row & Hrow & Hlen).
  unfold elem. rewrite Hrow. apply lookup_lt_is_Some_2. lia.
Qed.

Lemma shape_replicate (n w : nat) (x : Z) : shape (replicate n (replicate w x)) n w.
Proof.
  split; [apply length_replicate |].
  apply Forall_replicate. apply length_replicate.
Qed.

Lemma elem_replicate (n w i j : nat) (x : Z) :
  i < n -> j < w -> elem (replicate n (replicate w x)) i j = Some x.
Proof.
  intros Hi Hj. unfold elem.
  rewrite lookup_replicate_2 by exact Hi. apply lookup_replicate_2. exact Hj.
Qed.

Lemma elem_entry (m : Matrix) (i j : nat) (x : Z) :
  elem m i j = Some x -> entry m i j = x.
Proof. unfold entry. intros ->. reflexivity. Qed.

Lemma shape_entry (m : Matrix) (n w i j : nat) :
  shape m n w -> i < n -> j < w -> elem m i j = Some (entry m i j).
Proof.
  intros Hm Hi Hj. destruct (shape_elem m n w i j Hm Hi Hj) as [x Hx].
  rewrite (elem_entry _ _ _ _ Hx). exact Hx.
Qed.

Lemma mat_at_elem {E} (m : Matrix) (i j : nat) (x : Z) :
  elem m i j = Some x -> mat_at (E := E) m i j = Ok x.
Proof.
  unfold elem, mat_at, vat. destruct (m !! i) as [row|]; [|discriminate].
  simpl. intros ->. reflexivity.
Qed.

(** An in-range store succeeds, keeps the shape, and changes one element. *)
Lemma mat_set_spec {E} (m : Matrix) (n w i j : nat) (x : Z) :
  shape m n w -> i < n -> j < w ->
  exists m', mat_set (E := E) m i j x = Ok m' /\
    shape m' n w /\
    elem m' i j = Some x /\
    (forall i' j', (i', j') <> (i, j) -> elem m' i' j' = elem m i' j').
Proof.
  intros Hm Hi Hj. destruct (shape_lookup m n w i Hm Hi) as (row & Hrow & Hlen).
  exists (<[i := <[j := x]> row]> m). unfold mat_set, vat, vset. rewrite Hrow. simpl.
  rewrite decide_True by lia. simpl.
  destruct Hm as [Hn Hall]. rewrite decide_True by lia.
  split; [reflexivity |]. split; [| split].
  - split; [rewrite length_insert; exact Hn |].
    apply Forall_insert; [exact Hall |]. rewrite length_insert. exact Hlen.
  - unfold elem. rewrite list_lookup_insert_eq by lia.
    apply list_lookup_insert_eq. lia.
  - intros i' j' Hne. unfold elem.
    destruct (decide (i' = i)) as [-> | Hi'].
    + rewrite list_lookup_insert_eq by lia. rewrite Hrow.
      apply list_lookup_insert_ne. congruence.
    + rewrite list_lookup_insert_ne by congruence. reflexivity.
Qed.

Lemma agrees_ext (m : Matrix) (n w : nat) (f g : nat -> nat -> Z) :
  agrees m n w f ->
  (forall i j, i < n -> j < w -> f i j = g i j) ->
  agrees m n w g.
Proof.
  intros [Hm Hf] Hfg. split; [exact Hm |].
  intros i j Hi Hj. rewrite <- Hfg by assumption. auto.
Qed.

(** Storing [x] at an in-range position of a matrix that agrees with [f]. *)
Lemma agrees_set {E} (m : Matrix) (n w i j : nat) (x : Z) (f g : nat -> nat -> Z) :
  agrees m n w f -> i < n -> j < w ->
  g i j = x ->
  (forall i' j', i' < n -> j' < w -> (i', j') <> (i, j) -> g i' j' = f i' j') ->
  exists m', mat_set (E := E) m i j x = Ok m' /\ agrees m' n w g.
Proof.
  intros [Hm Hf] Hi Hj Hg Hother.
  destruct (mat_set_spec (E := E) m n w i j x Hm Hi Hj) as (m' & Hset & Hm' & Hx & Hframe).
  exists m'. split; [exact Hset |]. split; [exact Hm' |].
  intros i' j' Hi' Hj'. destruct (decide ((i', j') = (i, j))) as [[= -> ->] | Hne].
  - rewrite Hg. exact Hx.
  - rewrite Hframe by exact Hne. rewrite Hother by assumption. auto.
Qed.

(** ** Multiplication *)

Section multiply_loops.
Variables (A B : Matrix) (n m p : nat).
Hypothesis HA : shape A n p.
Hypothesis HB : shape B p m.

Local Abbreviation accumulate := (accumulate A B).
Local Abbreviation partial := (partial A B p).

Lemma accumulate_step (i j k : nat) (result : Matrix) :
  i < n -> j < m -> k < p ->
  agrees result n m (partial i j k) ->
  exists result', accumulate i j k result = Ok result' /\
                  agrees result' n m (partial i j (S k)).
Proof.
  intros Hi Hj Hk Hres. unfold accumulate.
  rewrite (mat_at_elem result i j (partial i j k i j)) by (apply Hres; assumption).
  rewrite (mat_at_elem A i k (entry A i k)) by (eapply shape_entry; eauto).
  rewrite (mat_at_elem B k j (entry B k j)) by (eapply shape_entry; eauto).
  simpl. rewrite int_add_mul.
  eapply agrees_set; [exact Hres | exact Hi | exact Hj | |].
  - unfold partial. repeat case_decide; try lia.
    rewrite wrap_int_add_l. reflexivity.
  - intros i' j' _ _ Hne. unfold partial.
    destruct (decide (i' < i \/ (i' = i /\ j' < j))); [reflexivity |].
    destruct (decide (i' = i /\ j' = j)) as [[-> ->] | _]; [congruence | reflexivity].
Qed.

Lemma k_loop (i j : nat) (result : Matrix) :
  i < n -> j < m ->
  agrees result n m (partial i j 0) ->
  exists result', for_ 0 p (accumulate i j) result = Ok result' /\
                  agrees result' n m (partial i (S j) 0).
Proof.
  intros Hi Hj Hres.
  destruct (for_ok (fun k r => agrees r n m (partial i j k))
              (accumulate i j) p 0 result) as (result' & Hrun & Hpost).
  - exact Hres.
  - intros k r Hk Hr. apply accumulate_step; [assumption | assumption | lia | exact Hr].
  - exists result'. split; [exact Hrun |].
    eapply agrees_ext; [exact Hpost |]. intros i' j' _ _. simpl.
    unfold partial.
    destruct (decide (i' < i \/ (i' = i /\ j' < j))) as [Hlt | Hge].
    + rewrite decide_True by lia. reflexivity.
    + destruct (decide (i' = i /\ j' = j)) as [[-> ->] | Hne].
      * rewrite decide_True by lia. reflexivity.
      * rewrite decide_False by lia.
        destruct (decide (i' = i /\ j' = S j)); reflexivity.
Qed.

Lemma j_loop (i : nat) (result : Matrix) :
  i < n ->
  agrees result n m (partial i 0 0) ->
  exists result',
    for_ 0 m (fun j result => for_ 0 p (accumulate i j) result) result = Ok result' /\
    agrees result' n m (partial (S i) 0 0).
Proof.
  intros Hi Hres.
  destruct (for_ok (fun j r => agrees r n m (partial i j 0))
              (fun j result => for_ 0 p (accumulate i j) result) m 0 result)
    as (result' & Hrun & Hpost).
  - exact Hres.
  - intros j r Hj Hr. apply k_loop; [assumption | lia | exact Hr].
  - exists result'. split; [exact Hrun |].
    eapply agrees_ext; [exact Hpost |]. intros i' j' _ Hj'. simpl.
    unfold partial.
    destruct (decide (i' < i \/ (i' = i /\ j' < m))) as [Hlt | Hge].
    + rewrite decide_True by lia. reflexivity.
    + rewrite decide_False by lia. rewrite decide_False by lia.
      destruct (decide (i' = S i /\ j' = 0)); reflexivity.
Qed.

Lemma i_loop :
  exists result',
    for_ 0 n (fun i result =>
      for_ 0 m (fun j result => for_ 0 p (accumulate i j) result) result)
      (replicate n (replicate m 0%Z)) = Ok result' /\
    agrees result' n m (fun i j => wrap_int (dot A B i j p)).
Proof.
  destruct (for_ok (fun i r => agrees r n m (partial i 0 0))
              (fun i result =>
                 for_ 0 m (fun j result => for_ 0 p (accumulate i j) result) result)
              n 0 (replicate n (replicate m 0%Z)))
    as (result' & Hrun & Hpost).
  - split; [apply shape_replicate |]. intros i j Hi Hj.
    rewrite elem_replicate by assumption. unfold partial.
    rewrite decide_False by lia.
    destruct (decide (i = 0 /\ j = 0)); reflexivity.
  - intros i r Hi Hr. apply j_loop; [lia | exact Hr].
  - exists result'. split; [exact Hrun |].
    eapply agrees_ext; [exact Hpost |]. intros i' j' Hi' _. simpl.
    unfold partial. rewrite decide_True by lia. reflexivity.
Qed.
End multiply_loops.

Lemma int_dot_wrap (A B : Matrix) (i j p : nat) :
  int_dot A B i j p = wrap_int (dot A B i j p).
Proof.
  induction p as [|k IH]; [reflexivity |].
  cbn [int_dot]. rewrite IH, int_add_mul, wrap_int_add_l. reflexivity.
Qed.

Lemma nonempty_width (M : Matrix) :
  M <> [] -> exists row0, M !! 0 = Some row0 /\ length row0 = width M.
Proof. destruct M as [|row0 M]; [congruence | eauto]. Qed.

Lemma vat_lookup {E A} (v : list A) (i : nat) (x : A) :
  v !! i = Some x -> vat (E := E) v i = Ok x.
Proof. unfold vat. intros ->. reflexivity. Qed.

(** C1, on the inputs where the code is defined.  For rectangular,
    non-empty [A] and [B] with [A]'s width equal to [B]'s height,
    [multiplyMatrices] returns a matrix of [A]'s height and [B]'s width
    whose element at [(i, j)] is the accumulation, from zero and in [int]
    arithmetic, of the products [A[i][k] * B[k][j]] for [k] below [A]'s
    width.  That is the mathematical sum of the products reduced to an
    [int], hence the sum itself whenever the sum is an [int].  The
    arguments are read only. *)
Theorem multiplyMatrices_product (A B : Matrix) :
  A <> [] -> B <> [] -> rectangular A -> rectangular B ->
  width A = height B ->
  exists C, multiplyMatrices A B = Ok C /\
    shape C (height A) (width B) /\
    forall i j, i < height A -> j < width B ->
      elem C i j = Some (int_dot A B i j (width A)) /\
      elem C i j = Some (wrap_int (dot A B i j (width A))) /\
      (is_int (dot A B i j (width A)) ->
       elem C i j = Some (dot A B i j (width A))).
Proof.
  intros HAne HBne HA HB Hinner. unfold multiplyMatrices.
  rewrite bool_decide_eq_false_2 by exact HAne.
  destruct (nonempty_width A HAne) as (a0 & Ha0 & Hwa).
  destruct (nonempty_width B HBne) as (b0 & Hb0 & Hwb).
  rewrite (vat_lookup A 0 a0 Ha0). simpl.
  rewrite bool_decide_eq_false_2 by (unfold height in Hinner; lia).
  rewrite (vat_lookup B 0 b0 Hb0). simpl.
  rewrite Hwb. fold (height B). rewrite <- Hinner.
  unfold rectangular in HA, HB. rewrite <- Hinner in HB.
  destruct (i_loop A B (height A) (width B) (width A) HA HB) as (C & Hrun & HC & Hval).
  exists C. split; [exact Hrun |]. split; [exact HC |].
  intros i j Hi Hj. rewrite int_dot_wrap.
  split; [apply Hval; assumption |]. split; [apply Hval; assumption |].
  intros Hfit. rewrite Hval by assumption. rewrite wrap_int_id by exact Hfit.
  reflexivity.
Qed.

Lemma multiplyMatrices_product_witness :
  exists C, multiplyMatrices [[1; 2]; [3; 4]]%Z [[5; 6]; [7; 8]]%Z = Ok C /\
    shape C 2 2 /\
    forall i j, i < 2 -> j < 2 ->
      elem C i j = Some (int_dot [[1; 2]; [3; 4]]%Z [[5; 6]; [7; 8]]%Z i j 2) /\
      elem C i j = Some (wrap_int (dot [[1; 2]; [3; 4]]%Z [[5; 6]; [7; 8]]%Z i j 2)) /\
      (is_int (dot [[1; 2]; [3; 4]]%Z [[5; 6]; [7; 8]]%Z i j 2) ->
       elem C i j = Some (dot [[1; 2]; [3; 4]]%Z [[5; 6]; [7; 8]]%Z i j 2)).
Proof.
  apply (multiplyMatrices_product [[1; 2]; [3; 4]]%Z [[5; 6]; [7; 8]]%Z).
  - discriminate.
  - discriminate.
  - split; [reflexivity |]. repeat constructor.
  - split; [reflexivity |]. repeat constructor.
  - reflexivity.
Defined.

(** C1 as stated fails twice.  With [A] one empty row and [B] without
    rows the dimension check passes (0 = 0) and the read of [B[0]] is
    outside [B]: no matrix is returned.  And the product of two one-by-one
    matrices holding 65536 is stored as 0, not as 4294967296. *)
Lemma multiplyMatrices_product_counterexample :
  (([[]] : Matrix) <> [] /\ width [[]] = height ([] : Matrix) /\
   multiplyMatrices [[]] [] = Undefined /\
   forall C, multiplyMatrices [[]] [] <> Ok C) /\
  (multiplyMatrices [[65536]]%Z [[65536]]%Z = Ok [[0]]%Z /\
   dot [[65536]]%Z [[65536]]%Z 0 0 1 = 4294967296%Z /\
   elem [[0]]%Z 0 0 <> Some (dot [[65536]]%Z [[65536]]%Z 0 0 1)).
Proof. repeat split; try reflexivity; discriminate. Qed.

(** ** Addition *)

Section add_loops.
Variables (A B : Matrix) (n : nat).
Hypothesis HA : shape A n n.
Hypothesis HB : shape B n n.

Local Abbreviation fill := (filled A B).

Lemma add_row (i : nat) (result : Matrix) :
  i < n ->
  agrees result n n (fill i 0) ->
  exists result',
    for_ (E := exn) 0 n (fun j result =>
      let* a := mat_at A i j in
      let* b := mat_at B i j in
      mat_set result i j (int_add a b)) result = Ok result' /\
    agrees result' n n (fill (S i) 0).
Proof.
  intros Hi Hres.
  match goal with |- exists r, for_ 0 n ?body result = _ /\ _ =>
    destruct (for_ok (fun j r => agrees r n n (fill i j)) body n 0 result)
      as (result' & Hrun & Hpost)
  end.
  - exact Hres.
  - intros j r Hj Hr.
    rewrite (mat_at_elem A i j (entry A i j)) by (eapply shape_entry; eauto; lia).
    rewrite (mat_at_elem B i j (entry B i j)) by (eapply shape_entry; eauto; lia).
    cbn [bind].
    eapply agrees_set; [exact Hr | exact Hi | lia | |].
    + unfold filled. rewrite decide_True by lia. reflexivity.
    + intros i' j' _ _ Hne. unfold filled.
      repeat case_decide; try reflexivity; try lia.
      exfalso. apply Hne. f_equal; lia.
  - exists result'. split; [exact Hrun |].
    eapply agrees_ext; [exact Hpost |]. intros i' j' _ Hj'. simpl.
    unfold filled. repeat case_decide; try reflexivity; lia.
Qed.

Lemma add_rows :
  exists result',
    for_ (E := exn) 0 n (fun i result =>
      for_ (E := exn) 0 n (fun j result =>
        let* a := mat_at A i j in
        let* b := mat_at B i j in
        mat_set result i j (int_add a b)) result)
      (replicate n (replicate n 0%Z)) = Ok result' /\
    agrees result' n n (fun i j => int_add (entry A i j) (entry B i j)).
Proof.
  match goal with |- exists r, for_ 0 n ?body ?init = _ /\ _ =>
    destruct (for_ok (fun i r => agrees r n n (fill i 0)) body n 0 init)
      as (result' & Hrun & Hpost)
  end.
  - split; [apply shape_replicate |]. intros i j Hi Hj.
    rewrite elem_replicate by assumption. unfold filled.
    rewrite decide_False by lia. reflexivity.
  - intros i r Hi Hr. apply add_row; [lia | exact Hr].
  - exists result'. split; [exact Hrun |].
    eapply agrees_ext; [exact Hpost |]. intros i' j' Hi' _. simpl.
    unfold filled. rewrite decide_True by lia. reflexivity.
Qed.
End add_loops.

Lemma addMatrices_agrees (A B : Matrix) (n : nat) :
  A <> [] -> shape A n n -> shape B n n ->
  exists C, addMatrices A B = Ok C /\
    agrees C n n (fun i j => int_add (entry A i j) (entry B i j)).
Proof.
  intros HAne HA HB. unfold addMatrices.
  rewrite bool_decide_eq_false_2 by exact HAne.
  destruct HA as [HnA HrA], HB as [HnB HrB].
  rewrite bool_decide_eq_false_2 by lia.
  assert (HBne : B <> []) by (destruct A, B; simpl in *; congruence).
  destruct (nonempty_width A HAne) as (a0 & Ha0 & _).
  destruct (nonempty_width B HBne) as (b0 & Hb0 & _).
  rewrite (vat_lookup A 0 a0 Ha0), (vat_lookup B 0 b0 Hb0). cbn [bind].
  rewrite Forall_lookup in HrA, HrB.
  rewrite bool_decide_eq_false_2
    by (rewrite (HrA 0 a0 Ha0), (HrB 0 b0 Hb0); auto).
  rewrite HnA. apply add_rows; split; try assumption; rewrite Forall_lookup; assumption.
Qed.

(** C2, on square matrices.  For non-empty square [A] and [B] of the same
    size [n], [addMatrices] returns an [n] by [n] matrix holding at
    [(i, j)] the [int] sum of [A[i][j]] and [B[i][j]], which is their
    mathematical sum whenever that is an [int]; adding [A] to itself
    doubles every element in [int].  The arguments are read only. *)
Theorem addMatrices_square (A B : Matrix) (n : nat) :
  A <> [] -> shape A n n -> shape B n n ->
  (exists C, addMatrices A B = Ok C /\ shape C n n /\
     forall i j a b, elem A i j = Some a -> elem B i j = Some b ->
       elem C i j = Some (wrap_int (a + b)) /\
       (is_int (a + b) -> elem C i j = Some (a + b)%Z)) /\
  (exists D, addMatrices A A = Ok D /\ shape D n n /\
     forall i j a, elem A i j = Some a -> elem D i j = Some (wrap_int (2 * a))).
Proof.
  intros HAne HA HB.
  assert (Hin : forall (M : Matrix) i j x,
             shape M n n -> elem M i j = Some x -> i < n /\ j < n).
  { intros M i j x [Hn Hrows] Hx. unfold elem in Hx.
    destruct (M !! i) as [row|] eqn:Hrow; [|discriminate].
    rewrite Forall_lookup in Hrows. pose proof (Hrows i row Hrow) as Hlen.
    apply lookup_lt_Some in Hrow, Hx. lia. }
  split.
  - destruct (addMatrices_agrees A B n HAne HA HB) as (C & Hrun & HC & Hval).
    exists C. split; [exact Hrun |]. split; [exact HC |].
    intros i j a b Ha Hb. destruct (Hin A i j a HA Ha) as [Hi Hj].
    rewrite Hval by assumption.
    rewrite (elem_entry A i j a Ha), (elem_entry B i j b Hb). unfold int_add.
    split; [reflexivity |]. intros Hfit. rewrite wrap_int_id by exact Hfit. reflexivity.
  - destruct (addMatrices_agrees A A n HAne HA HA) as (D & Hrun & HD & Hval).
    exists D. split; [exact Hrun |]. split; [exact HD |].
    intros i j a Ha. destruct (Hin A i j a HA Ha) as [Hi Hj].
    rewrite Hval by assumption. rewrite (elem_entry A i j a Ha). unfold int_add.
    do 2 f_equal. lia.
Qed.

Lemma addMatrices_square_witness :
  (exists C, addMatrices [[1; 2]; [3; 4]]%Z [[5; 6]; [7; 8]]%Z = Ok C /\ shape C 2 2 /\
     forall i j a b,
       elem [[1; 2]; [3; 4]]%Z i j = Some a -> elem [[5; 6]; [7; 8]]%Z i j = Some b ->
       elem C i j = Some (wrap_int (a + b)) /\
       (is_int (a + b) -> elem C i j = Some (a + b)%Z)) /\
  (exists D, addMatrices [[1; 2]; [3; 4]]%Z [[1; 2]; [3; 4]]%Z = Ok D /\ shape D 2 2 /\
     forall i j a,
       elem [[1; 2]; [3; 4]]%Z i j = Some a -> elem D i j = Some (wrap_int (2 * a))).
Proof.
  apply (addMatrices_square [[1; 2]; [3; 4]]%Z [[5; 6]; [7; 8]]%Z 2).
  - discriminate.
  - split; [reflexivity |]. repeat constructor.
  - split; [reflexivity |]. repeat constructor.
Defined.

(** C2 as stated fails on matrices that are not square, and on sums that
    leave [int].  The result is always height by height: of two 1 by 2
    matrices only the first column is added; for two 2 by 1 matrices the
    second column is read although it does not exist.  And the sum of
    2147483647 and 1 is stored as -2147483648. *)
Lemma addMatrices_counterexample :
  (addMatrices [[1; 2]]%Z [[3; 4]]%Z = Ok [[4]]%Z /\
   elem [[4]]%Z 0 1 <> Some (2 + 4)%Z) /\
  (addMatrices [[1]; [2]]%Z [[3]; [4]]%Z = Undefined /\
   forall C, addMatrices [[1]; [2]]%Z [[3]; [4]]%Z <> Ok C) /\
  (addMatrices [[2147483647]]%Z [[1]]%Z = Ok [[-2147483648]]%Z /\
   elem [[-2147483648]]%Z 0 0 <> Some (2147483647 + 1)%Z).
Proof. repeat split; try reflexivity; discriminate. Qed.

(** ** Dimension errors *)

Lemma no_raise_bind {E A B} (m : outcome E A) (k : A -> outcome E B) :
  no_raise m -> (forall a, no_raise (k a)) -> no_raise (bind m k).
Proof.
  intros Hm Hk. eapply post_bind; [exact Hm |]. intros a _. apply Hk.
Qed.

Lemma no_raise_vat {E A} (v : list A) (i : nat) : no_raise (vat (E := E) v i).
Proof. unfold vat. destruct (v !! i); exact I. Qed.

Lemma no_raise_vset {E A} (v : list A) (i : nat) (x : A) :
  no_raise (vset (E := E) v i x).
Proof. unfold vset. case_decide; exact I. Qed.

Lemma no_raise_mat_at {E} (m : Matrix) (i j : nat) : no_raise (mat_at (E := E) m i j).
Proof.
  unfold mat_at. apply no_raise_bind; [apply no_raise_vat |].
  intros row. apply no_raise_vat.
Qed.

Lemma no_raise_mat_set {E} (m : Matrix) (i j : nat) (x : Z) :
  no_raise (mat_set (E := E) m i j x).
Proof.
  unfold mat_set. apply no_raise_bind; [apply no_raise_vat |]. intros row.
  apply no_raise_bind; [apply no_raise_vset |]. intros row'. apply no_raise_vset.
Qed.

Lemma no_raise_for {E St} (body : nat -> St -> outcome E St) (lo cnt : nat) (s : St) :
  (forall i s, no_raise (body i s)) -> no_raise (for_ lo cnt body s).
Proof.
  intros Hbody. unfold no_raise.
  eapply post_mono;
    [apply (for_post (fun _ _ => True) (fun _ => False) True body cnt lo s I) | auto ..].
  intros i s' _ _. apply Hbody.
Qed.

Lemma no_raise_neq {E A} (o : outcome E A) (e : E) : no_raise o -> o <> Raise e.
Proof. intros H ->. exact H. Qed.

Create HintDb no_raise.

#[local] Hint Resolve no_raise_vat no_raise_vset no_raise_mat_at no_raise_mat_set
  : no_raise.

(** C3.  [addMatrices] throws exactly when [A] is empty, the heights
    differ, or the first rows differ in length; [multiplyMatrices] throws
    exactly when [A] is empty or the length of [A]'s first row differs from
    [B]'s height.  What is thrown is the [runtime_error] of the function,
    and a throw carries no matrix. *)
Theorem dimension_mismatch_exactly (A B : Matrix) (e : exn) :
  (addMatrices A B = Raise e <->
   e = add_error /\ (A = [] \/ height A <> height B \/ width A <> width B)) /\
  (multiplyMatrices A B = Raise e <->
   e = multiply_error /\ (A = [] \/ width A <> height B)).
Proof.
  split.
  - unfold addMatrices. case_bool_decide as HA.
    { split; [intros [= <-]; auto | intros [-> _]; reflexivity]. }
    case_bool_decide as Hh.
    { split; [intros [= <-]; auto | intros [-> _]; reflexivity]. }
    assert (HB : B <> []) by (destruct A, B; simpl in *; congruence).
    destruct (nonempty_width A HA) as (a0 & Ha0 & Hwa).
    destruct (nonempty_width B HB) as (b0 & Hb0 & Hwb).
    rewrite (vat_lookup A 0 a0 Ha0), (vat_lookup B 0 b0 Hb0). cbn [bind].
    rewrite Hwa, Hwb. case_bool_decide as Hw.
    { split; [intros [= <-]; auto | intros [-> _]; reflexivity]. }
    split.
    + intros Hraise. exfalso. revert Hraise. apply no_raise_neq.
      apply no_raise_for. intros i r. apply no_raise_for. intros j r'.
      repeat (apply no_raise_bind; [auto with no_raise | intros ?]).
      auto with no_raise.
    + unfold height. intros (_ & [H | [H | H]]); contradiction.
  - unfold multiplyMatrices. case_bool_decide as HA.
    { split; [intros [= <-]; auto | intros [-> _]; reflexivity]. }
    destruct (nonempty_width A HA) as (a0 & Ha0 & Hwa).
    rewrite (vat_lookup A 0 a0 Ha0). cbn [bind].
    rewrite Hwa. fold (height B). case_bool_decide as Hw.
    { split; [intros [= <-]; auto | intros [-> _]; reflexivity]. }
    split.
    + intros Hraise. exfalso. revert Hraise. apply no_raise_neq.
      apply no_raise_bind; [auto with no_raise | intros b0].
      apply no_raise_for. intros i r. apply no_raise_for. intros j r'.
      apply no_raise_for. intros k r''.
      repeat (apply no_raise_bind; [auto with no_raise | intros ?]).
      auto with no_raise.
    + intros (_ & [H | H]); contradiction.
Qed.

(** ** Mutators: rejected calls *)

(** C5.  A call of [swapRows], [swapCols] or [updateElement] on an empty
    matrix, or with a row index outside [0, height) or a column index
    outside [0, width), writes one diagnostic line to [std::cerr] and
    leaves the matrix as it was. *)
Theorem mutators_reject_out_of_range (M : Matrix) :
  (forall row1 row2 : Z,
     M = [] \/ ~ (0 <= row1 < Z.of_nat (height M))%Z
            \/ ~ (0 <= row2 < Z.of_nat (height M))%Z ->
     exists msg, swapRows M row1 row2 = Ok (M, [cerr msg])) /\
  (forall col1 col2 : Z,
     M = [] \/ ~ (0 <= col1 < Z.of_nat (width M))%Z
            \/ ~ (0 <= col2 < Z.of_nat (width M))%Z ->
     exists msg, swapCols M col1 col2 = Ok (M, [cerr msg])) /\
  (forall row col newValue : Z,
     M = [] \/ ~ (0 <= row < Z.of_nat (height M))%Z
            \/ ~ (0 <= col < Z.of_nat (width M))%Z ->
     exists msg, updateElement M row col newValue = Ok (M, [cerr msg])).
Proof.
  split; [| split].
  - intros row1 row2 H. unfold swapRows. case_bool_decide as HM; [eauto |].
    destruct H as [H | H]; [contradiction |]. unfold height in H.
    destruct ((row1 <? 0)%Z || (row1 >=? Z.of_nat (length M))%Z
              || (row2 <? 0)%Z || (row2 >=? Z.of_nat (length M))%Z) eqn:Hout;
      [eauto |].
    exfalso. lia.
  - intros col1 col2 H. unfold swapCols. case_bool_decide as HM; [eauto |].
    destruct H as [H | H]; [contradiction |].
    destruct (nonempty_width M HM) as (row0 & Hrow0 & Hw).
    rewrite (vat_lookup M 0 row0 Hrow0). cbn [bind].
    case_bool_decide as H0; [eauto |]. rewrite Hw.
    destruct ((col1 <? 0)%Z || (col1 >=? Z.of_nat (width M))%Z
              || (col2 <? 0)%Z || (col2 >=? Z.of_nat (width M))%Z) eqn:Hout;
      [eauto |].
    exfalso. lia.
  - intros row col newValue H. unfold updateElement. case_bool_decide as HM; [eauto |].
    destruct H as [H | H]; [contradiction |].
    destruct (nonempty_width M HM) as (row0 & Hrow0 & Hw).
    rewrite (vat_lookup M 0 row0 Hrow0). cbn [bind].
    case_bool_decide as H0; [eauto |]. rewrite Hw. unfold height in H.
    destruct ((row <? 0)%Z || (row >=? Z.of_nat (length M))%Z
              || (col <? 0)%Z || (col >=? Z.of_nat (width M))%Z) eqn:Hout;
      [eauto |].
    exfalso. lia.
Qed.

Lemma mutators_reject_out_of_range_witness :
  (exists msg, swapRows [[7]]%Z 0 1 = Ok ([[7]]%Z, [cerr msg])) /\
  (exists msg, swapCols [[1; 2]; [3; 4]]%Z (-1) 0 = Ok ([[1; 2]; [3; 4]]%Z, [cerr msg])) /\
  (exists msg, updateElement [] 0 0 99 = Ok ([], [cerr msg])).
Proof.
  split; [| split].
  - apply (mutators_reject_out_of_range [[7]]%Z). right. right. simpl. lia.
  - apply (mutators_reject_out_of_range [[1; 2]; [3; 4]]%Z). right. left. simpl. lia.
  - apply (mutators_reject_out_of_range []). left. reflexivity.
Defined.

(** ** Element update *)

Lemma vatZ_nat {E A} (v : list A) (i : Z) :
  (0 <= i)%Z -> vatZ (E := E) v i = vat v (Z.to_nat i).
Proof. intros Hi. unfold vatZ. destruct (Z.ltb_spec i 0); [lia | reflexivity]. Qed.

Lemma vsetZ_nat {E A} (v : list A) (i : Z) (x : A) :
  (0 <= i)%Z -> vsetZ (E := E) v i x = vset v (Z.to_nat i) x.
Proof. intros Hi. unfold vsetZ. destruct (Z.ltb_spec i 0); [lia | reflexivity]. Qed.

Lemma in_range_guard (a n b m : Z) :
  (0 <= a < n)%Z -> (0 <= b < m)%Z ->
  ((a <? 0)%Z || (a >=? n)%Z || (b <? 0)%Z || (b >=? m)%Z) = false.
Proof. intros Ha Hb. lia. Qed.

(** C7.  On a rectangular matrix, with [row] in [0, height) and [col] in
    [0, width), [updateElement] writes nothing to the console and leaves a
    matrix of the same dimensions whose element at [(row, col)] is
    [newValue] and whose other elements are those of before. *)
Theorem updateElement_frame (M : Matrix) (row col newValue : Z) :
  rectangular M ->
  (0 <= row < Z.of_nat (height M))%Z ->
  (0 <= col < Z.of_nat (width M))%Z ->
  exists M', updateElement M row col newValue = Ok (M', []) /\
    elem M' (Z.to_nat row) (Z.to_nat col) = Some newValue /\
    (forall i j, (i, j) <> (Z.to_nat row, Z.to_nat col) -> elem M' i j = elem M i j) /\
    height M' = height M /\ width M' = width M /\ rectangular M'.
Proof.
  intros HM Hrow Hcol. unfold updateElement.
  assert (HMne : M <> []) by (intros ->; simpl in Hrow; lia).
  rewrite bool_decide_eq_false_2 by exact HMne.
  destruct (nonempty_width M HMne) as (row0 & Hrow0 & Hw).
  rewrite (vat_lookup M 0 row0 Hrow0). cbn [bind].
  rewrite bool_decide_eq_false_2 by (intros ->; simpl in Hw; lia).
  rewrite Hw. fold (height M). rewrite in_range_guard by assumption.
  destruct (mat_set_spec (E := exn) M (height M) (width M)
              (Z.to_nat row) (Z.to_nat col) newValue HM) as (M' & Hset & HM' & Hnew & Hframe);
    [lia | lia |].
  exists M'. unfold mat_set in Hset.
  rewrite vatZ_nat by lia.
  destruct (vat (E := exn) M (Z.to_nat row)) as [r | |]; try discriminate.
  cbn [bind] in Hset |- *. rewrite vsetZ_nat by lia.
  destruct (vset (E := exn) r (Z.to_nat col) newValue) as [r' | |]; try discriminate.
  cbn [bind] in Hset |- *. rewrite vsetZ_nat by lia. rewrite Hset. cbn [bind].
  split; [reflexivity |]. split; [exact Hnew |]. split; [exact Hframe |].
  assert (Hh : height M' = height M) by (destruct HM' as [Hn _]; exact Hn).
  assert (Hw' : width M' = width M).
  { destruct M' as [|r0 M']; [simpl in Hh; lia |]. simpl.
    destruct HM' as [_ Hall]. inversion Hall; assumption. }
  split; [exact Hh |]. split; [exact Hw' |].
  unfold rectangular. rewrite Hh, Hw'. exact HM'.
Qed.

Lemma updateElement_frame_witness :
  exists M', updateElement [[1; 2]; [3; 4]]%Z 1 0 99 = Ok (M', []) /\
    elem M' 1 0 = Some 99%Z /\
    (forall i j, (i, j) <> (1, 0) -> elem M' i j = elem [[1; 2]; [3; 4]]%Z i j) /\
    height M' = 2 /\ width M' = 2 /\ rectangular M'.
Proof.
  apply (updateElement_frame [[1; 2]; [3; 4]]%Z 1 0 99).
  - split; [reflexivity |]. repeat constructor.
  - simpl. lia.
  - simpl. lia.
Defined.

(** ** Swaps *)

Lemma insert_swap_back {A} (v : list A) (a b : nat) (x y : A) :
  v !! a = Some x -> v !! b = Some y -> a <> b ->
  <[a := x]> (<[b := y]> (<[b := x]> (<[a := y]> v))) = v.
Proof.
  intros Ha Hb Hab. apply list_eq. intros k.
  pose proof (lookup_lt_Some _ _ _ Ha) as Hla.
  pose proof (lookup_lt_Some _ _ _ Hb) as Hlb.
  destruct (decide (k = a)) as [-> | Hka].
  - rewrite list_lookup_insert_eq by (rewrite !length_insert; lia). congruence.
  - rewrite list_lookup_insert_ne by congruence.
    destruct (decide (k = b)) as [-> | Hkb].
    + rewrite list_lookup_insert_eq by (rewrite !length_insert; lia). congruence.
    + rewrite !list_lookup_insert_ne by congruence. reflexivity.
Qed.

Lemma swapRows_swaps (M : Matrix) (i j : Z) (ri rj : list Z) :
  M !! Z.to_nat i = Some ri -> M !! Z.to_nat j = Some rj ->
  (0 <= i)%Z -> (0 <= j)%Z -> i <> j ->
  swapRows M i j = Ok (<[Z.to_nat j := ri]> (<[Z.to_nat i := rj]> M), []).
Proof.
  intros Hi Hj Hi0 Hj0 Hne. unfold swapRows.
  pose proof (lookup_lt_Some _ _ _ Hi) as Hli.
  pose proof (lookup_lt_Some _ _ _ Hj) as Hlj.
  rewrite bool_decide_eq_false_2 by (intros ->; simpl in Hli; lia).
  rewrite in_range_guard by lia.
  destruct (Z.eqb_spec i j) as [? | _]; [contradiction |].
  rewrite !vatZ_nat by assumption.
  rewrite (vat_lookup M _ ri Hi), (vat_lookup M _ rj Hj). cbn [bind].
  rewrite vsetZ_nat by assumption. unfold vset.
  rewrite decide_True by exact Hli. cbn [bind].
  rewrite vsetZ_nat by assumption. unfold vset.
  rewrite decide_True by (rewrite length_insert; exact Hlj). reflexivity.
Qed.

Lemma swapped_length (c1 c2 : nat) (row : list Z) :
  length (swapped c1 c2 row) = length row.
Proof.
  unfold swapped. destruct (row !! c1), (row !! c2); rewrite ?length_insert; reflexivity.
Qed.

Lemma swapped_swapped (c1 c2 : nat) (row : list Z) :
  c1 < length row -> c2 < length row -> c1 <> c2 ->
  swapped c2 c1 (swapped c1 c2 row) = row.
Proof.
  intros H1 H2 Hne.
  destruct (lookup_lt_is_Some_2 row c1 H1) as [x1 Hx1].
  destruct (lookup_lt_is_Some_2 row c2 H2) as [x2 Hx2].
  unfold swapped. rewrite Hx1, Hx2.
  rewrite list_lookup_insert_eq by (rewrite length_insert; lia).
  rewrite list_lookup_insert_ne by congruence.
  rewrite list_lookup_insert_eq by lia.
  apply insert_swap_back; assumption.
Qed.

(** The loop of [swapCols] swaps the two columns in every row. *)
Lemma swapCols_loop (M : Matrix) (w c1 c2 : nat) :
  Forall (fun row => length row = w) M -> c1 < w -> c2 < w ->
  for_ (E := exn) 0 (length M) (fun i matrix =>
    let* row := vat matrix i in
    let* x1 := vatZ row (Z.of_nat c1) in
    let* x2 := vatZ row (Z.of_nat c2) in
    let* row := vsetZ row (Z.of_nat c1) x2 in
    let* row := vsetZ row (Z.of_nat c2) x1 in
    vset matrix i row) M = Ok (swapped c1 c2 <$> M).
Proof.
  intros Hrows H1 H2. rewrite Forall_lookup in Hrows.
  match goal with |- for_ 0 _ ?body M = _ =>
    destruct (for_ok
      (fun i (matrix : Matrix) =>
         length matrix = length M /\
         forall k, matrix !! k =
                   if decide (k < i) then swapped c1 c2 <$> M !! k else M !! k)
      body (length M) 0 M) as (M' & Hrun & Hlen & Hpost)
  end.
  - split; [reflexivity |]. intros k. rewrite decide_False by lia. reflexivity.
  - intros i matrix Hi [Hlen Hinv].
    destruct (lookup_lt_is_Some_2 M i) as [row Hrow]; [lia |].
    pose proof (Hrows i row Hrow) as Hw.
    destruct (lookup_lt_is_Some_2 row c1) as [x1 Hx1]; [lia |].
    destruct (lookup_lt_is_Some_2 row c2) as [x2 Hx2]; [lia |].
    exists (<[i := swapped c1 c2 row]> matrix).
    assert (Hcur : matrix !! i = Some row).
    { rewrite Hinv. rewrite decide_False by lia. exact Hrow. }
    rewrite (vat_lookup matrix i row Hcur). cbn [bind].
    rewrite vatZ_nat, Nat2Z.id, (vat_lookup row c1 x1 Hx1) by lia. cbn [bind].
    rewrite vatZ_nat, Nat2Z.id, (vat_lookup row c2 x2 Hx2) by lia. cbn [bind].
    rewrite vsetZ_nat, Nat2Z.id by lia. unfold vset at 1.
    rewrite decide_True by lia. cbn [bind].
    rewrite vsetZ_nat, Nat2Z.id by lia. unfold vset at 1.
    rewrite decide_True by (rewrite length_insert; lia). cbn [bind].
    unfold vset. rewrite decide_True by lia.
    unfold swapped. rewrite Hx1, Hx2.
    split; [reflexivity |]. split; [rewrite length_insert; exact Hlen |].
    intros k. destruct (decide (k = i)) as [-> | Hk].
    + rewrite list_lookup_insert_eq by lia. rewrite decide_True by lia.
      rewrite Hrow. simpl. rewrite Hx1, Hx2. reflexivity.
    + rewrite list_lookup_insert_ne by congruence. rewrite Hinv.
      repeat case_decide; try reflexivity; lia.
  - rewrite Hrun. f_equal. apply list_eq. intros k.
    rewrite Hpost, list_lookup_fmap. case_decide as Hk; [reflexivity |].
    rewrite lookup_ge_None_2 by (simpl in Hk; lia). reflexivity.
Qed.

Lemma swapCols_swaps (M : Matrix) (col1 col2 : Z) :
  rectangular M ->
  (0 <= col1 < Z.of_nat (width M))%Z -> (0 <= col2 < Z.of_nat (width M))%Z ->
  col1 <> col2 ->
  swapCols M col1 col2 = Ok (swapped (Z.to_nat col1) (Z.to_nat col2) <$> M, []).
Proof.
  intros [_ Hrows] H1 H2 Hne. unfold swapCols.
  assert (HMne : M <> []) by (intros ->; simpl in H1; lia).
  rewrite bool_decide_eq_false_2 by exact HMne.
  destruct (nonempty_width M HMne) as (row0 & Hrow0 & Hw).
  rewrite (vat_lookup M 0 row0 Hrow0). cbn [bind].
  rewrite bool_decide_eq_false_2 by (intros ->; simpl in Hw; lia).
  rewrite Hw. rewrite in_range_guard by assumption.
  destruct (Z.eqb_spec col1 col2) as [? | _]; [contradiction |].
  pose proof (swapCols_loop M (width M) (Z.to_nat col1) (Z.to_nat col2) Hrows) as Hloop.
  rewrite !Z2Nat.id in Hloop by lia. rewrite Hloop by lia. reflexivity.
Qed.

Lemma swapped_rectangular (M : Matrix) (c1 c2 : nat) :
  rectangular M ->
  rectangular (swapped c1 c2 <$> M) /\ width (swapped c1 c2 <$> M) = width M.
Proof.
  intros [_ Hrows].
  assert (Hw : width (swapped c1 c2 <$> M) = width M).
  { destruct M; [reflexivity | simpl; apply swapped_length]. }
  split; [| exact Hw]. unfold rectangular. rewrite Hw. split; [reflexivity |].
  apply Forall_fmap. eapply Forall_impl; [exact Hrows |].
  intros row Hrow. simpl. rewrite swapped_length. exact Hrow.
Qed.

(** C6.  Swapping a valid row (or column) index with itself changes
    nothing and reports nothing.  For two distinct valid row indices,
    swapping them and then swapping them again in the opposite argument
    order gives the matrix back; so it is for two distinct valid column
    indices of a rectangular matrix. *)
Theorem swaps_involutive (M : Matrix) :
  (forall i : Z, (0 <= i < Z.of_nat (height M))%Z -> swapRows M i i = Ok (M, [])) /\
  (forall i j : Z,
     (0 <= i < Z.of_nat (height M))%Z -> (0 <= j < Z.of_nat (height M))%Z -> i <> j ->
     exists M', swapRows M i j = Ok (M', []) /\ swapRows M' j i = Ok (M, [])) /\
  (forall c : Z, (0 <= c < Z.of_nat (width M))%Z -> swapCols M c c = Ok (M, [])) /\
  (forall c d : Z,
     rectangular M ->
     (0 <= c < Z.of_nat (width M))%Z -> (0 <= d < Z.of_nat (width M))%Z -> c <> d ->
     exists M', swapCols M c d = Ok (M', []) /\ swapCols M' d c = Ok (M, [])).
Proof.
  split; [| split; [| split]].
  - intros i Hi. unfold swapRows.
    rewrite bool_decide_eq_false_2 by (intros ->; simpl in Hi; lia).
    unfold height in Hi. rewrite in_range_guard by assumption.
    rewrite Z.eqb_refl. reflexivity.
  - intros i j Hi Hj Hne. unfold height in Hi, Hj.
    destruct (lookup_lt_is_Some_2 M (Z.to_nat i)) as [ri Hri]; [lia |].
    destruct (lookup_lt_is_Some_2 M (Z.to_nat j)) as [rj Hrj]; [lia |].
    assert (Hnat : Z.to_nat i <> Z.to_nat j) by lia.
    eexists. split; [apply (swapRows_swaps M i j ri rj); (assumption || lia) |].
    rewrite (swapRows_swaps _ j i ri rj); try lia.
    + rewrite insert_swap_back by assumption. reflexivity.
    + apply list_lookup_insert_eq. rewrite length_insert. lia.
    + rewrite list_lookup_insert_ne by congruence.
      apply list_lookup_insert_eq. lia.
  - intros c Hc. unfold swapCols.
    assert (HMne : M <> []) by (intros ->; simpl in Hc; lia).
    rewrite bool_decide_eq_false_2 by exact HMne.
    destruct (nonempty_width M HMne) as (row0 & Hrow0 & Hw).
    rewrite (vat_lookup M 0 row0 Hrow0). cbn [bind].
    rewrite bool_decide_eq_false_2 by (intros ->; simpl in Hw; lia).
    rewrite Hw. rewrite in_range_guard by assumption.
    rewrite Z.eqb_refl. reflexivity.
  - intros c d HM Hc Hd Hne.
    destruct (swapped_rectangular M (Z.to_nat c) (Z.to_nat d) HM) as [HM' Hw'].
    eexists. split; [apply swapCols_swaps; assumption |].
    rewrite swapCols_swaps; [| exact HM' | rewrite Hw'; lia | rewrite Hw'; lia | congruence].
    do 2 f_equal. rewrite <- list_fmap_compose.
    rewrite <- (list_fmap_id M) at 2. apply Forall_fmap_ext_1.
    destruct HM as [_ Hrows]. eapply Forall_impl; [exact Hrows |].
    intros row Hrow. simpl in Hrow |- *. apply swapped_swapped; lia.
Qed.

Lemma swaps_involutive_witness :
  swapRows [[1; 2]; [3; 4]]%Z 1 1 = Ok ([[1; 2]; [3; 4]]%Z, []) /\
  (exists M', swapRows [[1; 2]; [3; 4]]%Z 0 1 = Ok (M', []) /\
              swapRows M' 1 0 = Ok ([[1; 2]; [3; 4]]%Z, [])) /\
  swapCols [[1; 2]; [3; 4]]%Z 0 0 = Ok ([[1; 2]; [3; 4]]%Z, []) /\
  (exists M', swapCols [[1; 2]; [3; 4]]%Z 0 1 = Ok (M', []) /\
              swapCols M' 1 0 = Ok ([[1; 2]; [3; 4]]%Z, [])).
Proof.
  pose proof (swaps_involutive [[1; 2]; [3; 4]]%Z) as (Hrr & Hrs & Hcc & Hcs).
  split; [| split; [| split]].
  - apply Hrr. simpl. lia.
  - apply Hrs; simpl; lia.
  - apply Hcc. simpl. lia.
  - apply Hcs; [split; [reflexivity | repeat constructor] | simpl; lia ..].
Defined.

(** ** Diagonal sums *)

Lemma sumZ_int_bound (n : nat) (f : nat -> Z) :
  (forall k, k < n -> is_int (f k)) ->
  (- (Z.of_nat n * 2147483648) <= sumZ n f <= Z.of_nat n * 2147483648)%Z.
Proof.
  induction n as [|n IH]; intros Hf; simpl sumZ; [lia |].
  specialize (IH (fun k Hk => Hf k (Nat.lt_lt_succ_r _ _ Hk))).
  pose proof (Hf n (Nat.lt_succ_diag_r n)) as Hn.
  unfold is_int, int_min, int_max in Hn. lia.
Qed.

(** Adding the next [int] term of a sum of at most [int_max] terms to a
    [long long] accumulator does not wrap. *)
Lemma llong_add_sumZ (n i : nat) (f : nat -> Z) :
  (Z.of_nat n <= int_max)%Z -> i < n ->
  (forall k, k < n -> is_int (f k)) ->
  llong_add (sumZ i f) (f i) = sumZ (S i) f.
Proof.
  intros Hn Hi Hf. unfold llong_add. apply wrap_llong_id.
  change (sumZ i f + f i)%Z with (sumZ (S i) f).
  pose proof (sumZ_int_bound (S i) f (fun k Hk => Hf k ltac:(lia))) as Hb.
  unfold int_max in Hn. unfold llong_min, llong_max. lia.
Qed.

(** C4.  For a non-empty rectangular matrix with as many rows as columns
    (and, as the types say, [int] elements and a height that fits [int]),
    [sumDiagonals] prints the sum of the [M[i][i]] and the sum of the
    [M[i][n-1-i]]: the exact sums, the [long long] accumulators never
    wrap.  For an empty matrix or one whose height differs from its width
    it prints the error line and nothing else.  The matrix is read only. *)
Theorem sumDiagonals_sums (M : Matrix) :
  (M <> [] -> rectangular M -> height M = width M ->
   int_matrix M -> (Z.of_nat (height M) <= int_max)%Z ->
   sumDiagonals M =
   Ok [cout [Str "Sum of main diagonal elements: ";
             Int (sumZ (height M) (fun i => entry M i i))];
       cout [Str "Sum of secondary diagonal elements: ";
             Int (sumZ (height M) (fun i => entry M i (height M - 1 - i)))]]) /\
  (M = [] \/ height M <> width M -> sumDiagonals M = Ok [not_square]).
Proof.
  split.
  - intros HMne HM Hsq Hint Hfit. unfold sumDiagonals.
    rewrite bool_decide_eq_false_2 by exact HMne.
    destruct (nonempty_width M HMne) as (row0 & Hrow0 & Hw).
    rewrite (vat_lookup M 0 row0 Hrow0). cbn [bind].
    rewrite bool_decide_eq_false_2 by (unfold height in Hsq; lia).
    fold (height M). set (n := height M) in *.
    unfold rectangular in HM. rewrite <- Hsq in HM. fold n in HM.
    assert (Hent : forall i j, i < n -> j < n -> is_int (entry M i j)).
    { intros i j Hi Hj. apply (Hint i j). eapply shape_entry; eauto. }
    match goal with |- bind (for_ 0 n ?body ?init) _ = _ =>
      destruct (for_ok
        (fun i (sums : Z * Z) =>
           sums = (sumZ i (fun i => entry M i i),
                   sumZ i (fun i => entry M i (n - 1 - i))))
        body n 0 init) as (sums & Hrun & Hsums)
    end.
    + reflexivity.
    + intros i sums Hi ->.
      destruct (shape_lookup M n n i HM) as (row & Hrow & Hlen); [lia |].
      rewrite (mat_at_elem M i i (entry M i i)) by (eapply shape_entry; eauto; lia).
      cbn [bind]. rewrite (vat_lookup M i row Hrow). cbn [bind].
      assert (Hs : row !! (n - 1 - i) = Some (entry M i (n - 1 - i))).
      { pose proof (shape_entry M n n i (n - 1 - i) HM) as H. unfold elem in H.
        rewrite Hrow in H. apply H; lia. }
      rewrite vatZ_nat by lia.
      replace (Z.to_nat (Z.of_nat n - 1 - Z.of_nat i)) with (n - 1 - i) by lia.
      rewrite (vat_lookup row _ _ Hs). cbn [bind fst snd].
      eexists. split; [reflexivity |]. f_equal.
      * apply (llong_add_sumZ n i (fun i => entry M i i)); [exact Hfit | lia |].
        intros k Hk. apply Hent; lia.
      * apply (llong_add_sumZ n i (fun i => entry M i (n - 1 - i))); [exact Hfit | lia |].
        intros k Hk. apply Hent; lia.
    + rewrite Hrun. cbn [bind]. rewrite Hsums. reflexivity.
  - intros H. unfold sumDiagonals. case_bool_decide as HMne; [reflexivity |].
    destruct H as [H | H]; [contradiction |].
    destruct (nonempty_width M HMne) as (row0 & Hrow0 & Hw).
    rewrite (vat_lookup M 0 row0 Hrow0). cbn [bind].
    rewrite bool_decide_eq_true_2 by (unfold height in H; lia). reflexivity.
Qed.

Lemma sumDiagonals_sums_witness :
  sumDiagonals [[2147483647; 2]; [3; 2147483647]]%Z =
    Ok [cout [Str "Sum of main diagonal elements: "; Int 4294967294];
        cout [Str "Sum of secondary diagonal elements: "; Int 5]] /\
  sumDiagonals [[1; 2; 3]; [4; 5; 6]]%Z = Ok [not_square].
Proof.
  pose proof (sumDiagonals_sums [[2147483647; 2]; [3; 2147483647]]%Z) as [Hsum _].
  pose proof (sumDiagonals_sums [[1; 2; 3]; [4; 5; 6]]%Z) as [_ Herr].
  split.
  - apply Hsum.
    + discriminate.
    + split; [reflexivity |]. repeat constructor.
    + reflexivity.
    + intros [|[|i]] [|[|j]] x Hx; simpl in Hx; inversion Hx; subst;
        unfold is_int, int_min, int_max; lia.
    + unfold int_max. simpl. lia.
  - apply Herr. right. simpl. lia.
Defined.

(** ** The two-by-two scenario *)

(** C8, with the secondary sum the code prints.  For [A = [[1,2],[3,4]]]
    and [B = [[5,6],[7,8]]] the sum is [[6,8],[10,12]], the product is
    [[19,22],[43,50]], and both diagonals of [A] sum to 5. *)
Theorem scenario_2x2 :
  addMatrices [[1; 2]; [3; 4]]%Z [[5; 6]; [7; 8]]%Z = Ok [[6; 8]; [10; 12]]%Z /\
  multiplyMatrices [[1; 2]; [3; 4]]%Z [[5; 6]; [7; 8]]%Z = Ok [[19; 22]; [43; 50]]%Z /\
  sumDiagonals [[1; 2]; [3; 4]]%Z =
    Ok [cout [Str "Sum of main diagonal elements: "; Int 5];
        cout [Str "Sum of secondary diagonal elements: "; Int 5]].
Proof. repeat split; reflexivity. Qed.

(** C8 as stated gives 4 for the secondary diagonal of [A]; the elements
    on it are [A[0][1] = 2] and [A[1][0] = 3]. *)
Lemma scenario_2x2_counterexample :
  elem [[1; 2]; [3; 4]]%Z 0 1 = Some 2%Z /\
  elem [[1; 2]; [3; 4]]%Z 1 0 = Some 3%Z /\
  sumDiagonals [[1; 2]; [3; 4]]%Z <>
    Ok [cout [Str "Sum of main diagonal elements: "; Int 5];
        cout [Str "Sum of secondary diagonal elements: "; Int 4]].
Proof. repeat split; try reflexivity. discriminate. Qed.

(** ** The unguarded read of [B[0]] *)

(** C9 fails on the code.  With [A] made of one empty row and [B] without
    rows, [A] is not empty and the length of its first row, 0, is [B]'s
    height, so nothing is thrown; the next statement reads [B[0]], which
    is outside [B]. *)
Theorem multiplyMatrices_reads_outside_B :
  ([[]] : Matrix) <> [] /\
  width [[]] = height ([] : Matrix) /\
  (forall e, multiplyMatrices [[]] [] <> Raise e) /\
  vat (E := exn) ([] : Matrix) 0 = Undefined /\
  multiplyMatrices [[]] [] = Undefined.
Proof. repeat split; try reflexivity; discriminate. Qed.

(** ** The loader *)

Lemma extract_good (s : ifstream) (old z : Z) (rest : ifstream) :
  extract s old = (true, z, rest) <-> s = Tnum z :: rest /\ is_int z.
Proof.
  unfold extract, is_int. destruct s as [|[z'|] s]; try (split; [discriminate | intros [[=] _]]).
  destruct (Z.ltb_spec z' int_min); [split; [discriminate | intros [[= -> ->] ?]; lia] |].
  destruct (Z.ltb_spec int_max z'); [split; [discriminate | intros [[= -> ->] ?]; lia] |].
  split; [intros [= -> ->]; split; [reflexivity | lia] | intros [[= -> ->] _]; reflexivity].
Qed.

Lemma extract_flag (s : ifstream) (old : Z) :
  fst (fst (extract s old)) = true ->
  extract s old = (true, snd (fst (extract s old)), snd (extract s old)).
Proof. destruct (extract s old) as [[[] z] rest]; simpl; [reflexivity | discriminate]. Qed.

Lemma take_ints_step (c : nat) (s0 s : ifstream) (vals : list Z) (z : Z) (rest : ifstream) :
  take_ints c s0 = Some (vals, s) -> s = Tnum z :: rest -> is_int z ->
  take_ints (S c) s0 = Some (vals ++ [z], rest).
Proof.
  revert s0 vals. induction c as [|c IH]; intros s0 vals Hc -> Hz.
  - simpl in Hc. injection Hc as <- ->. simpl.
    unfold is_int in Hz.
    destruct (Z.ltb_spec z int_min); [lia |]. destruct (Z.ltb_spec int_max z); [lia |].
    reflexivity.
  - cbn [take_ints] in Hc. destruct s0 as [|[z0|] s0]; try discriminate.
    destruct ((z0 <? int_min)%Z || (int_max <? z0)%Z) eqn:Hz0; [discriminate |].
    destruct (take_ints c s0) as [[vals0 s']|] eqn:Hc0; [|discriminate].
    injection Hc as <- ->.
    change (take_ints (S (S c)) (Tnum z0 :: s0))
      with (if ((z0 <? int_min)%Z || (int_max <? z0)%Z) then None
            else match take_ints (S c) s0 with
                 | Some (vals, s') => Some (z0 :: vals, s')
                 | None => None
                 end).
    rewrite Hz0. rewrite (IH s0 vals0 Hc0 eq_refl Hz). reflexivity.
Qed.

Lemma take_ints_stuck (c : nat) (s0 s : ifstream) (vals : list Z) (old : Z) :
  take_ints c s0 = Some (vals, s) -> fst (fst (extract s old)) = false ->
  take_ints (S c) s0 = None.
Proof.
  revert s0 vals. induction c as [|c IH]; intros s0 vals Hc Hbad.
  - simpl in Hc. injection Hc as <- <-. simpl. unfold extract in Hbad.
    destruct s0 as [|[z|] s0]; try reflexivity.
    destruct (Z.ltb_spec z int_min); [reflexivity |].
    destruct (Z.ltb_spec int_max z); [reflexivity | discriminate].
  - cbn [take_ints] in Hc. destruct s0 as [|[z0|] s0]; try discriminate.
    destruct ((z0 <? int_min)%Z || (int_max <? z0)%Z) eqn:Hz0; [discriminate |].
    destruct (take_ints c s0) as [[vals0 s']|] eqn:Hc0; [|discriminate].
    injection Hc as <- <-.
    change (take_ints (S (S c)) (Tnum z0 :: s0))
      with (if ((z0 <? int_min)%Z || (int_max <? z0)%Z) then None
            else match take_ints (S c) s0 with
                 | Some (vals, s') => Some (z0 :: vals, s')
                 | None => None
                 end).
    rewrite Hz0. rewrite (IH s0 vals0 Hc0 Hbad). reflexivity.
Qed.

Lemma take_ints_None_mono (c d : nat) (s : ifstream) :
  take_ints c s = None -> c <= d -> take_ints d s = None.
Proof.
  revert d s. induction c as [|c IH]; intros d s Hc Hd; [discriminate |].
  destruct d as [|d]; [lia |]. cbn [take_ints] in *.
  destruct s as [|[z|] s]; try reflexivity.
  destruct ((z <? int_min)%Z || (int_max <? z)%Z); [reflexivity |].
  destruct (take_ints c s) as [[vals s']|] eqn:Hc0; [discriminate |].
  rewrite (IH d s Hc0) by lia. reflexivity.
Qed.

Lemma take_ints_Some (k : nat) (s : ifstream) (vals : list Z) (rest : ifstream) :
  take_ints k s = Some (vals, rest) <->
  s = map Tnum vals ++ rest /\ length vals = k /\ Forall is_int vals.
Proof.
  revert s vals. induction k as [|k IH]; intros s vals; cbn [take_ints].
  - split.
    + intros [= <- <-]. auto.
    + intros (-> & Hlen & _). destruct vals; [reflexivity | discriminate].
  - split.
    + destruct s as [|[z|] s]; try discriminate.
      destruct (Z.ltb_spec z int_min); [discriminate |].
      destruct (Z.ltb_spec int_max z); [discriminate |]. simpl.
      destruct (take_ints k s) as [[vals0 s']|] eqn:Hk; [|discriminate].
      intros [= <- <-]. apply IH in Hk as (-> & <- & Hall).
      split; [reflexivity |]. split; [reflexivity |].
      constructor; [unfold is_int; lia | exact Hall].
    + intros (-> & Hlen & Hall). destruct vals as [|z vals]; [discriminate |].
      inversion Hall as [|? ? Hz Hall']; subst. simpl. unfold is_int in Hz.
      destruct (Z.ltb_spec z int_min); [lia |].
      destruct (Z.ltb_spec int_max z); [lia |]. simpl.
      rewrite (proj2 (IH (map Tnum vals ++ rest) vals)); [reflexivity |].
      simpl in Hlen. auto.
Qed.

Lemma index_lt_square (n i j : nat) : i < n -> j < n -> i * n + j < n * n.
Proof.
  intros Hi Hj. pose proof (Nat.mul_le_mono_r (S i) n n Hi). simpl in *. lia.
Qed.

Lemma index_inj (n i j i' j' : nat) :
  j < n -> j' < n -> i' * n + j' = i * n + j -> i' = i /\ j' = j.
Proof.
  intros Hj Hj' H.
  destruct (Nat.lt_trichotomy i' i) as [Hlt | [-> | Hgt]].
  - pose proof (Nat.mul_le_mono_r (S i') i n Hlt). simpl in *. lia.
  - lia.
  - pose proof (Nat.mul_le_mono_r (S i) i' n Hgt). simpl in *. lia.
Qed.

(** One execution of the reading statement: either the next value is
    stored, or the stream does not hold [n * n] values of type [int]. *)
Lemma read_element_post (name : string) (n : nat) (s0 : ifstream) (i j : nat)
    (st : Matrix * ifstream) :
  i < n -> j < n ->
  reading n s0 (i * n + j) st ->
  post (read_element name i j st)
       (reading n s0 (i * n + S j))
       (fun _ => take_ints (n * n) s0 = None)
       False.
Proof.
  intros Hi Hj (vals & Htake & Hshape & Helems). unfold read_element.
  rewrite (mat_at_elem (fst st) i j (entry (fst st) i j))
    by (eapply shape_entry; eauto).
  cbn [bind].
  set (r := extract (snd st) (entry (fst st) i j)).
  destruct (mat_set_spec (E := Matrix * line) (fst st) n n i j (snd (fst r)) Hshape Hi Hj)
    as (matrix' & Hset & Hshape' & Hnew & Hframe).
  rewrite Hset. cbn [bind].
  destruct (fst (fst r)) eqn:Hflag; simpl.
  - pose proof (extract_flag _ _ Hflag) as Hr. fold r in Hr.
    apply extract_good in Hr as [Hs Hz].
    pose proof (proj1 (take_ints_Some _ _ _ _) Htake) as (_ & Hlen & _).
    exists (vals ++ [snd (fst r)]). simpl. split; [| split].
    + replace (i * n + S j) with (S (i * n + j)) by lia.
      eapply take_ints_step; eauto.
    + exact Hshape'.
    + intros i' j' Hi' Hj' Hidx.
      destruct (decide (i' * n + j' = i * n + j)) as [Heq | Hne].
      * destruct (index_inj n i j i' j' Hj Hj' Heq) as [-> ->].
        rewrite Hnew. symmetry. rewrite lookup_app_r by lia.
        rewrite Hlen, Nat.sub_diag. reflexivity.
      * rewrite Hframe by congruence. rewrite lookup_app_l by lia.
        apply Helems; [assumption | assumption | lia].
  - eapply take_ints_None_mono.
    + eapply take_ints_stuck; [exact Htake | exact Hflag].
    + pose proof (index_lt_square n i j Hi Hj). lia.
Qed.

(** The two nested reading loops. *)
Lemma read_loops_post (name : string) (n : nat) (s0 : ifstream) (matrix : Matrix) :
  shape matrix n n ->
  post (for_ 0 n (fun i st => for_ 0 n (fun j st => read_element name i j st) st)
          (matrix, s0))
       (reading n s0 (n * n))
       (fun _ => take_ints (n * n) s0 = None)
       False.
Proof.
  intros Hshape.
  pose proof (for_post (fun i st => reading n s0 (i * n) st)
                (fun _ : Matrix * line => take_ints (n * n) s0 = None) False
                (fun i st => for_ 0 n (fun j st => read_element name i j st) st)
                n 0 (matrix, s0)) as Hloop.
  simpl in Hloop. apply Hloop.
  - exists []. simpl. split; [reflexivity |]. split; [exact Hshape |]. intros; lia.
  - intros i st Hi Hst.
    pose proof (for_post (fun j st => reading n s0 (i * n + j) st)
                  (fun _ : Matrix * line => take_ints (n * n) s0 = None) False
                  (fun j st => read_element name i j st) n 0 st) as Hrow.
    simpl in Hrow. replace (n + i * n) with (i * n + n) by lia. apply Hrow.
    + rewrite Nat.add_0_r. exact Hst.
    + intros j st' Hj Hst'. apply read_element_post; [lia | lia | exact Hst'].
Qed.

Lemma shape_ext (m m' : Matrix) (n w : nat) :
  shape m n w -> shape m' n w ->
  (forall i j, i < n -> j < w -> elem m i j = elem m' i j) ->
  m = m'.
Proof.
  intros Hm Hm' Heq. apply list_eq. intros i.
  destruct (decide (i < n)) as [Hi | Hi].
  - destruct (shape_lookup m n w i Hm Hi) as (row & Hrow & Hlen).
    destruct (shape_lookup m' n w i Hm' Hi) as (row' & Hrow' & Hlen').
    rewrite Hrow, Hrow'. f_equal. apply list_eq. intros j.
    destruct (decide (j < w)) as [Hj | Hj].
    + specialize (Heq i j Hi Hj). unfold elem in Heq.
      rewrite Hrow, Hrow' in Heq. exact Heq.
    + rewrite !lookup_ge_None_2 by lia. reflexivity.
  - destruct Hm as [Hn _], Hm' as [Hn' _].
    rewrite !lookup_ge_None_2 by lia. reflexivity.
Qed.

Lemma vresize_nil {A} (n : nat) (x : A) : vresize [] n x = replicate n x.
Proof. unfold vresize. rewrite take_nil, Nat.sub_0_r. reflexivity. Qed.

(** With empty matrices passed in and a size token [z > 0] read, the
    loader always returns, and what it returns is described by
    [load_result]. *)
Lemma loadMatrices_post (fs : string -> option ifstream) (filename : string)
    (n0 z : Z) (s : ifstream) :
  fs filename = Some (Tnum z :: s) -> is_int z -> (0 < z)%Z ->
  post (loadMatrices fs filename [] [] n0)
       (load_result (Z.to_nat z) s) (fun _ => False) False.
Proof.
  intros Hfile Hz Hpos. unfold loadMatrices. rewrite Hfile.
  rewrite (proj2 (extract_good (Tnum z :: s) n0 z s)) by auto.
  cbn [fst snd negb orb]. destruct (Z.leb_spec z 0) as [? | _]; [lia |].
  rewrite !vresize_nil. set (n := Z.to_nat z).
  pose proof (shape_replicate n n 0%Z) as Hzero.
  pose proof (read_loops_post "A" n s _ Hzero) as HA.
  destruct (for_ 0 n _ (replicate n (replicate n 0%Z), s)) as [[A s1] | [A msg] |];
    simpl in HA; [| simpl; left; exact HA | contradiction].
  destruct HA as (valsA & HtakeA & HshapeA & HelemA). simpl in HtakeA, HshapeA, HelemA.
  pose proof (read_loops_post "B" n s1 _ Hzero) as HB.
  destruct (for_ 0 n _ (replicate n (replicate n 0%Z), s1)) as [[B s2] | [B msg] |];
    simpl in HB; [| simpl; right; eauto | contradiction].
  destruct HB as (valsB & HtakeB & HshapeB & HelemB). simpl in HtakeB, HshapeB, HelemB.
  unfold load_result. simpl. exists valsA, s1, valsB, s2.
  split; [exact HtakeA |]. split; [exact HtakeB |].
  split; [exact HshapeA |]. split; [exact HshapeB |].
  split; [| split; [| split; [unfold n; lia | reflexivity]]].
  - intros i j Hi Hj. apply HelemA; [assumption | assumption |].
    apply index_lt_square; assumption.
  - intros i j Hi Hj. apply HelemB; [assumption | assumption |].
    apply index_lt_square; assumption.
Qed.

(** C10, for the call the program makes.  When [loadMatrices] is called
    with empty [matrixA] and [matrixB] and returns true, the file starts
    with a size [n >= 1] followed by [2 * n * n] integers of type [int];
    [n] is stored, the matrices are [n] by [n], [A] holds the first
    [n * n] of these integers row-major and [B] the next [n * n]; and with
    anything else after these tokens the call returns the same. *)
Theorem loadMatrices_success (fs : string -> option ifstream) (filename : string)
    (n0 : Z) (r : loaded) :
  loadMatrices fs filename [] [] n0 = Ok r -> success r = true ->
  exists (n : nat) (valsA valsB : list Z) (rest : ifstream),
    fs filename
      = Some (Tnum (Z.of_nat n) :: map Tnum valsA ++ map Tnum valsB ++ rest) /\
    1 <= n /\ loadedN r = Z.of_nat n /\
    length valsA = n * n /\ length valsB = n * n /\
    Forall is_int valsA /\ Forall is_int valsB /\
    shape (loadedA r) n n /\ shape (loadedB r) n n /\
    (forall i j, i < n -> j < n -> elem (loadedA r) i j = valsA !! (i * n + j)) /\
    (forall i j, i < n -> j < n -> elem (loadedB r) i j = valsB !! (i * n + j)) /\
    (forall fs' rest' n0',
       fs' filename
         = Some (Tnum (Z.of_nat n) :: map Tnum valsA ++ map Tnum valsB ++ rest') ->
       loadMatrices fs' filename [] [] n0' = Ok r).
Proof.
  intros Hrun Htrue.
  assert (Hsize : exists z s, fs filename = Some (Tnum z :: s) /\ is_int z /\ (0 < z)%Z).
  { revert Hrun. unfold loadMatrices.
    destruct (fs filename) as [inFile|]; [| intros [= <-]; discriminate].
    destruct (fst (fst (extract inFile n0))) eqn:Hflag;
      [| intros [= <-]; discriminate].
    apply extract_flag in Hflag. apply extract_good in Hflag as [Hs Hz].
    cbn [negb orb].
    destruct (Z.leb_spec (snd (fst (extract inFile n0))) 0);
      [intros [= <-]; discriminate |].
    intros _. eexists _, _. split; [f_equal; exact Hs |]. split; [exact Hz | lia]. }
  destruct Hsize as (z & s & Hfile & Hz & Hpos).
  pose proof (loadMatrices_post fs filename n0 z s Hfile Hz Hpos) as Hpost.
  rewrite Hrun in Hpost. simpl in Hpost. unfold load_result in Hpost.
  rewrite Htrue in Hpost.
  destruct Hpost as (valsA & s1 & valsB & s2 & HtA & HtB & HsA & HsB & HeA & HeB & HN & Hmsg).
  apply take_ints_Some in HtA as HA. destruct HA as (-> & HlenA & HintA).
  apply take_ints_Some in HtB as HB. destruct HB as (-> & HlenB & HintB).
  set (n := Z.to_nat z) in *.
  assert (Hzn : z = Z.of_nat n) by (unfold n; lia).
  exists n, valsA, valsB, s2. rewrite <- Hzn.
  repeat (split; [first [assumption | unfold n; lia] |]).
  intros fs' rest' n0' Hfile'.
  pose proof (loadMatrices_post fs' filename n0' z _ Hfile' Hz Hpos) as Hpost'.
  destruct (loadMatrices fs' filename [] [] n0') as [r' | |];
    simpl in Hpost'; try contradiction.
  fold n in Hpost'. unfold load_result in Hpost'.
  assert (HtA' : take_ints (n * n) (map Tnum valsA ++ map Tnum valsB ++ rest')
                 = Some (valsA, map Tnum valsB ++ rest'))
    by (apply take_ints_Some; auto).
  assert (HtB' : take_ints (n * n) (map Tnum valsB ++ rest') = Some (valsB, rest'))
    by (apply take_ints_Some; auto).
  rewrite HtA' in Hpost'.
  destruct r' as [ok' A' B' N' msgs']. destruct r as [ok A B N msgs].
  simpl in *. subst ok.
  destruct ok'.
  - destruct Hpost' as (vA & t1 & vB & t2 & [= <- <-] & HtB'' & HsA' & HsB' & HeA' & HeB' & HN' & Hmsg').
    rewrite HtB' in HtB''. injection HtB'' as <- <-.
    f_equal. f_equal; try congruence.
    + eapply shape_ext; [exact HsA' | exact HsA |].
      intros i j Hi Hj. rewrite HeA', HeA by assumption. reflexivity.
    + eapply shape_ext; [exact HsB' | exact HsB |].
      intros i j Hi Hj. rewrite HeB', HeB by assumption. reflexivity.
  - exfalso. destruct Hpost' as [[=] | (vA & t1 & [= <- <-] & Hnone)].
    rewrite HtB' in Hnone. discriminate.
Qed.

Lemma loadMatrices_success_witness :
  exists (n : nat) (valsA valsB : list Z) (rest : ifstream),
    Some (map Tnum [2; 1; 2; 3; 4; 5; 6; 7; 8]%Z ++ [Tword])
      = Some (Tnum (Z.of_nat n) :: map Tnum valsA ++ map Tnum valsB ++ rest) /\
    1 <= n /\ 2%Z = Z.of_nat n /\
    length valsA = n * n /\ length valsB = n * n /\
    Forall is_int valsA /\ Forall is_int valsB /\
    shape [[1; 2]; [3; 4]]%Z n n /\ shape [[5; 6]; [7; 8]]%Z n n /\
    (forall i j, i < n -> j < n ->
       elem [[1; 2]; [3; 4]]%Z i j = valsA !! (i * n + j)) /\
    (forall i j, i < n -> j < n ->
       elem [[5; 6]; [7; 8]]%Z i j = valsB !! (i * n + j)) /\
    (forall fs' rest' n0',
       fs' "m.txt"
         = Some (Tnum (Z.of_nat n) :: map Tnum valsA ++ map Tnum valsB ++ rest') ->
       loadMatrices fs' "m.txt" [] [] n0'
         = Ok (Loaded true [[1; 2]; [3; 4]]%Z [[5; 6]; [7; 8]]%Z 2 [])).
Proof.
  apply (loadMatrices_success
           (fun _ => Some (map Tnum [2; 1; 2; 3; 4; 5; 6; 7; 8]%Z ++ [Tword]))
           "m.txt" 0
           (Loaded true [[1; 2]; [3; 4]]%Z [[5; 6]; [7; 8]]%Z 2 [])).
  - reflexivity.
  - reflexivity.
Defined.

(** C10 as stated fails when a matrix passed in is not empty: [resize]
    keeps the rows that are there.  With [matrixA] holding one row of
    three elements and a file for [n = 1], the call returns true and [A]
    is 1 by 3. *)
Lemma loadMatrices_counterexample :
  loadMatrices (fun _ => Some [Tnum 1; Tnum 5; Tnum 6]) "m.txt" [[7; 7; 7]]%Z [] 0
    = Ok (Loaded true [[5; 7; 7]]%Z [[6]]%Z 1 []) /\
  ~ shape [[5; 7; 7]]%Z 1 1.
Proof.
  split; [reflexivity |]. intros [_ H]. inversion H; subst; discriminate.
Qed.

(** * Further properties of the code *)

(** ** Addition commutes *)

Lemma for_ext {E St} (body body' : nat -> St -> outcome E St) (cnt : nat) :
  (forall i s, body i s = body' i s) ->
  forall lo s, for_ lo cnt body s = for_ lo cnt body' s.
Proof.
  intros Hbody. induction cnt as [|cnt IH]; intros lo s; simpl; [reflexivity |].
  rewrite Hbody. destruct (body' lo s); simpl; auto.
Qed.

Lemma add_element_comm (A B result : Matrix) (i j : nat) :
  (let* a := mat_at A i j in
   let* b := mat_at B i j in
   mat_set (E := exn) result i j (int_add a b)) =
  (let* b := mat_at B i j in
   let* a := mat_at A i j in
   mat_set result i j (int_add b a)).
Proof.
  pose proof (no_raise_mat_at (E := exn) A i j) as HA.
  pose proof (no_raise_mat_at (E := exn) B i j) as HB.
  destruct (mat_at A i j) as [a | |], (mat_at B i j) as [b | |];
    simpl in *; try contradiction; try reflexivity.
  unfold int_add. rewrite Z.add_comm. reflexivity.
Qed.

(** Whatever the two arguments are, [addMatrices] behaves the same with
    the arguments exchanged: the same matrix, the same exception, or an
    access outside a vector in both orders. *)
Theorem addMatrices_comm (A B : Matrix) : addMatrices A B = addMatrices B A.
Proof.
  unfold addMatrices.
  destruct A as [|a0 A], B as [|b0 B]; try reflexivity.
  rewrite (bool_decide_eq_false_2 (a0 :: A = [])) by discriminate.
  rewrite (bool_decide_eq_false_2 (b0 :: B = [])) by discriminate.
  cbn [vat lookup list_lookup bind].
  generalize (length (a0 :: A)) (length (b0 :: B)) (length a0) (length b0).
  intros nA nB wA wB.
  destruct (decide (nA = nB)) as [-> | Hh].
  - rewrite (bool_decide_eq_false_2 (nB <> nB)) by auto. cbn [bind].
    destruct (decide (wA = wB)) as [-> | Hw].
    + rewrite (bool_decide_eq_false_2 (wB <> wB)) by auto.
      apply for_ext. intros i r. apply for_ext. intros j r'.
      apply add_element_comm.
    + rewrite (bool_decide_eq_true_2 (wA <> wB)) by congruence.
      rewrite (bool_decide_eq_true_2 (wB <> wA)) by congruence. reflexivity.
  - rewrite (bool_decide_eq_true_2 (nA <> nB)) by congruence.
    rewrite (bool_decide_eq_true_2 (nB <> nA)) by congruence. reflexivity.
Qed.

(** ** Multiplication by the identity *)

Lemma multiplyMatrices_agrees (A B : Matrix) (n p m : nat) :
  shape A n p -> shape B p m -> 0 < n -> 0 < p ->
  exists C, multiplyMatrices A B = Ok C /\
            agrees C n m (fun i j => wrap_int (dot A B i j p)).
Proof.
  intros HA HB Hn Hp. unfold multiplyMatrices.
  destruct (shape_lookup A n p 0 HA Hn) as (a0 & Ha0 & Hla).
  destruct (shape_lookup B p m 0 HB Hp) as (b0 & Hb0 & Hlb).
  rewrite bool_decide_eq_false_2 by (intros ->; discriminate).
  rewrite (vat_lookup A 0 a0 Ha0). cbn [bind].
  destruct HA as [HnA HrA], HB as [HnB HrB].
  rewrite bool_decide_eq_false_2 by lia.
  rewrite (vat_lookup B 0 b0 Hb0). cbn [bind].
  rewrite HnA, HnB, Hlb. apply i_loop; split; assumption.
Qed.

Lemma sumZ_pointwise (n : nat) (f g : nat -> Z) :
  (forall k, k < n -> f k = g k) -> sumZ n f = sumZ n g.
Proof.
  induction n as [|n IH]; intros H; simpl; [reflexivity |].
  rewrite IH by (intros; apply H; lia). rewrite H by lia. reflexivity.
Qed.

(** A sum whose terms vanish except at position [j]. *)
Lemma sumZ_single (n j : nat) (f : nat -> Z) :
  j < n ->
  sumZ n (fun k => if decide (k = j) then f k else 0%Z) = f j.
Proof.
  induction n as [|n IH]; intros Hj; [lia |]. simpl.
  destruct (decide (n = j)) as [-> | Hne].
  - rewrite (sumZ_pointwise j _ (fun _ => 0%Z)).
    + clear. induction j as [|j IH]; simpl; lia.
    + intros k Hk. rewrite decide_False by lia. reflexivity.
  - rewrite IH by lia. lia.
Qed.

Lemma shape_identity (n : nat) : shape (identityMatrix n) n n.
Proof.
  unfold identityMatrix. split.
  - rewrite length_fmap, length_seq. reflexivity.
  - apply Forall_fmap, Forall_forall. intros i _. simpl.
    rewrite length_fmap, length_seq. reflexivity.
Qed.

Lemma entry_identity (n i j : nat) :
  i < n -> j < n ->
  entry (identityMatrix n) i j = if decide (i = j) then 1%Z else 0%Z.
Proof.
  intros Hi Hj. unfold entry, elem, identityMatrix.
  rewrite list_lookup_fmap, lookup_seq_lt by exact Hi. simpl.
  rewrite list_lookup_fmap, lookup_seq_lt by exact Hj. reflexivity.
Qed.

(** An [n] by [p] matrix of [int]s is returned unchanged when it is
    multiplied by the identity matrix, on the right (size [p]) or on the
    left (size [n]). *)
Theorem multiplyMatrices_identity (A : Matrix) (n p : nat) :
  shape A n p -> 0 < n -> 0 < p -> int_matrix A ->
  multiplyMatrices A (identityMatrix p) = Ok A /\
  multiplyMatrices (identityMatrix n) A = Ok A.
Proof.
  intros HA Hn Hp Hint.
  assert (Hval : forall i j, i < n -> j < p -> wrap_int (entry A i j) = entry A i j).
  { intros i j Hi Hj. apply wrap_int_id. apply (Hint i j).
    eapply shape_entry; eauto. }
  split.
  - destruct (multiplyMatrices_agrees A (identityMatrix p) n p p HA (shape_identity p) Hn Hp)
      as (C & -> & HC & HCval).
    f_equal. eapply shape_ext; [exact HC | exact HA |].
    intros i j Hi Hj. rewrite HCval by assumption.
    rewrite (shape_entry A n p i j HA Hi Hj). f_equal.
    rewrite <- Hval by assumption. f_equal. unfold dot.
    rewrite (sumZ_pointwise p _ (fun k => if decide (k = j) then entry A i k else 0%Z)).
    + apply (sumZ_single p j (fun k => entry A i k)). exact Hj.
    + intros k Hk. rewrite entry_identity by assumption. case_decide; lia.
  - destruct (multiplyMatrices_agrees (identityMatrix n) A n n p (shape_identity n) HA Hn Hn)
      as (C & -> & HC & HCval).
    f_equal. eapply shape_ext; [exact HC | exact HA |].
    intros i j Hi Hj. rewrite HCval by assumption.
    rewrite (shape_entry A n p i j HA Hi Hj). f_equal.
    rewrite <- Hval by assumption. f_equal. unfold dot.
    rewrite (sumZ_pointwise n _ (fun k => if decide (k = i) then entry A k j else 0%Z)).
    + apply (sumZ_single n i (fun k => entry A k j)). exact Hi.
    + intros k Hk. rewrite entry_identity by assumption.
      destruct (decide (i = k)) as [-> | Hne].
      * rewrite decide_True by reflexivity. lia.
      * rewrite decide_False by congruence. lia.
Qed.

Lemma multiplyMatrices_identity_witness :
  multiplyMatrices [[1; 2; 3]; [4; 5; 6]]%Z (identityMatrix 3)
    = Ok [[1; 2; 3]; [4; 5; 6]]%Z /\
  multiplyMatrices (identityMatrix 2) [[1; 2; 3]; [4; 5; 6]]%Z
    = Ok [[1; 2; 3]; [4; 5; 6]]%Z.
Proof.
  apply (multiplyMatrices_identity [[1; 2; 3]; [4; 5; 6]]%Z 2 3).
  - split; [reflexivity |]. repeat constructor.
  - lia.
  - lia.
  - intros [|[|i]] [|[|[|j]]] x Hx; simpl in Hx; inversion Hx; subst;
      unfold is_int, int_min, int_max; lia.
Defined.

(** ** What the mutators do to the matrix *)

Lemma swapRows_same (M : Matrix) (i : Z) :
  (0 <= i < Z.of_nat (length M))%Z -> swapRows M i i = Ok (M, []).
Proof.
  intros Hi. unfold swapRows.
  rewrite bool_decide_eq_false_2 by (intros ->; simpl in Hi; lia).
  rewrite in_range_guard by assumption. rewrite Z.eqb_refl. reflexivity.
Qed.

(** Either [swapRows] leaves the vector as it is, or both indices are
    valid and distinct. *)
Lemma swapRows_cases (M : Matrix) (row1 row2 : Z) :
  (exists log, swapRows M row1 row2 = Ok (M, log)) \/
  ((0 <= row1 < Z.of_nat (length M))%Z /\ (0 <= row2 < Z.of_nat (length M))%Z /\
   row1 <> row2).
Proof.
  unfold swapRows. case_bool_decide; [eauto |].
  destruct ((row1 <? 0)%Z || (row1 >=? Z.of_nat (length M))%Z
            || (row2 <? 0)%Z || (row2 >=? Z.of_nat (length M))%Z) eqn:Hout; [eauto |].
  destruct (Z.eqb_spec row1 row2); [eauto |]. right. lia.
Qed.

(** With two valid row indices, [swapRows] reports nothing and exchanges
    the two rows: row [row1] is the former row [row2] and conversely, every
    other row is where it was, and the number of rows is the same.  No
    assumption is made on the lengths of the rows. *)
Theorem swapRows_exchanges (M : Matrix) (row1 row2 : Z) :
  (0 <= row1 < Z.of_nat (height M))%Z -> (0 <= row2 < Z.of_nat (height M))%Z ->
  exists M', swapRows M row1 row2 = Ok (M', []) /\
    height M' = height M /\
    M' !! Z.to_nat row1 = M !! Z.to_nat row2 /\
    M' !! Z.to_nat row2 = M !! Z.to_nat row1 /\
    forall k, k <> Z.to_nat row1 -> k <> Z.to_nat row2 -> M' !! k = M !! k.
Proof.
  unfold height. intros H1 H2.
  destruct (decide (row1 = row2)) as [<- | Hne].
  { exists M. rewrite swapRows_same by assumption. auto. }
  destruct (lookup_lt_is_Some_2 M (Z.to_nat row1)) as [r1 Hr1]; [lia |].
  destruct (lookup_lt_is_Some_2 M (Z.to_nat row2)) as [r2 Hr2]; [lia |].
  eexists. split; [apply (swapRows_swaps M row1 row2 r1 r2); (assumption || lia) |].
  assert (Hnat : Z.to_nat row1 <> Z.to_nat row2) by lia.
  split; [rewrite !length_insert; reflexivity |]. split; [| split].
  - rewrite list_lookup_insert_ne by congruence.
    rewrite list_lookup_insert_eq by lia. congruence.
  - rewrite list_lookup_insert_eq by (rewrite length_insert; lia). congruence.
  - intros k Hk1 Hk2. rewrite !list_lookup_insert_ne by congruence. reflexivity.
Qed.

Lemma swapRows_exchanges_witness :
  exists M', swapRows [[1; 2]; [3]; [4; 5; 6]]%Z 2 0 = Ok (M', []) /\
    height M' = 3 /\
    M' !! 2 = Some [1; 2]%Z /\
    M' !! 0 = Some [4; 5; 6]%Z /\
    forall k, k <> 2 -> k <> 0 -> M' !! k = [[1; 2]; [3]; [4; 5; 6]]%Z !! k.
Proof.
  apply (swapRows_exchanges [[1; 2]; [3]; [4; 5; 6]]%Z 2 0); simpl; lia.
Defined.

(** Whatever the vector of rows and whatever the two indices, [swapRows]
    returns without reading or writing outside the vector, and the rows it
    leaves are the rows it found, in some order: none is lost, none is
    duplicated. *)
Theorem swapRows_permutes (M : Matrix) (row1 row2 : Z) :
  exists M' log, swapRows M row1 row2 = Ok (M', log) /\ M' ≡ₚ M.
Proof.
  destruct (swapRows_cases M row1 row2) as [[log Hsame] | (H1 & H2 & Hne)].
  { exists M, log. split; [exact Hsame | reflexivity]. }
  destruct (lookup_lt_is_Some_2 M (Z.to_nat row1)) as [r1 Hr1]; [lia |].
  destruct (lookup_lt_is_Some_2 M (Z.to_nat row2)) as [r2 Hr2]; [lia |].
  eexists _, _. split; [apply (swapRows_swaps M row1 row2 r1 r2); (assumption || lia) |].
  apply Permutation_insert_swap; assumption.
Qed.

Lemma swapped_lookup (c1 c2 c : nat) (row : list Z) :
  c1 < length row -> c2 < length row ->
  swapped c1 c2 row !! c =
  row !! (if decide (c = c1) then c2 else if decide (c = c2) then c1 else c).
Proof.
  intros H1 H2.
  destruct (lookup_lt_is_Some_2 row c1 H1) as [x1 Hx1].
  destruct (lookup_lt_is_Some_2 row c2 H2) as [x2 Hx2].
  unfold swapped. rewrite Hx1, Hx2.
  destruct (decide (c = c2)) as [-> | Hc2].
  - rewrite list_lookup_insert_eq by (rewrite length_insert; lia).
    case_decide; congruence.
  - rewrite list_lookup_insert_ne by congruence.
    destruct (decide (c = c1)) as [-> | Hc1].
    + rewrite list_lookup_insert_eq by lia. congruence.
    + rewrite list_lookup_insert_ne by congruence. reflexivity.
Qed.

Lemma swapCols_same (M : Matrix) (c : Z) :
  (0 <= c < Z.of_nat (width M))%Z -> swapCols M c c = Ok (M, []).
Proof.
  intros Hc. unfold swapCols.
  assert (HMne : M <> []) by (intros ->; simpl in Hc; lia).
  rewrite bool_decide_eq_false_2 by exact HMne.
  destruct (nonempty_width M HMne) as (row0 & Hrow0 & Hw).
  rewrite (vat_lookup M 0 row0 Hrow0). cbn [bind].
  rewrite bool_decide_eq_false_2 by (intros ->; simpl in Hw; lia).
  rewrite Hw. rewrite in_range_guard by assumption.
  rewrite Z.eqb_refl. reflexivity.
Qed.

(** On a rectangular matrix and with two valid column indices, [swapCols]
    reports nothing and leaves a matrix of the same dimensions in which,
    in every row, the elements of the two columns are exchanged and every
    other element is where it was. *)
Theorem swapCols_exchanges (M : Matrix) (col1 col2 : Z) :
  rectangular M ->
  (0 <= col1 < Z.of_nat (width M))%Z -> (0 <= col2 < Z.of_nat (width M))%Z ->
  exists M', swapCols M col1 col2 = Ok (M', []) /\
    shape M' (height M) (width M) /\
    forall r c,
      elem M' r c =
      elem M r (if decide (c = Z.to_nat col1) then Z.to_nat col2
                else if decide (c = Z.to_nat col2) then Z.to_nat col1 else c).
Proof.
  intros HM H1 H2.
  destruct (decide (col1 = col2)) as [<- | Hne].
  { exists M. rewrite swapCols_same by assumption.
    split; [reflexivity |]. split; [exact HM |].
    intros r c. repeat case_decide; subst; reflexivity. }
  exists (swapped (Z.to_nat col1) (Z.to_nat col2) <$> M).
  split; [apply swapCols_swaps; assumption |].
  destruct HM as [_ Hrows]. split.
  - split; [rewrite length_fmap; reflexivity |].
    apply Forall_fmap. eapply Forall_impl; [exact Hrows |].
    intros row Hrow. simpl. rewrite swapped_length. exact Hrow.
  - intros r c. unfold elem. rewrite list_lookup_fmap.
    destruct (M !! r) as [row|] eqn:Hrow; [| reflexivity]. simpl.
    rewrite Forall_lookup in Hrows. pose proof (Hrows r row Hrow) as Hlen.
    apply swapped_lookup; lia.
Qed.

Lemma swapCols_exchanges_witness :
  exists M', swapCols [[1; 2; 3]; [4; 5; 6]]%Z 2 0 = Ok (M', []) /\
    shape M' 2 3 /\
    forall r c,
      elem M' r c =
      elem [[1; 2; 3]; [4; 5; 6]]%Z r
        (if decide (c = 2) then 0 else if decide (c = 0) then 2 else c).
Proof.
  apply (swapCols_exchanges [[1; 2; 3]; [4; 5; 6]]%Z 2 0).
  - split; [reflexivity |]. repeat constructor.
  - simpl. lia.
  - simpl. lia.
Defined.

Lemma swapCols_cases (M : Matrix) (col1 col2 : Z) :
  (exists log, swapCols M col1 col2 = Ok (M, log)) \/
  ((0 <= col1 < Z.of_nat (width M))%Z /\ (0 <= col2 < Z.of_nat (width M))%Z /\
   col1 <> col2).
Proof.
  unfold swapCols. case_bool_decide as HM; [eauto |].
  destruct (nonempty_width M HM) as (row0 & Hrow0 & Hw).
  rewrite (vat_lookup M 0 row0 Hrow0). cbn [bind].
  case_bool_decide; [eauto |]. rewrite Hw.
  destruct ((col1 <? 0)%Z || (col1 >=? Z.of_nat (width M))%Z
            || (col2 <? 0)%Z || (col2 >=? Z.of_nat (width M))%Z) eqn:Hout; [eauto |].
  destruct (Z.eqb_spec col1 col2); [eauto |]. right. lia.
Qed.

Lemma updateElement_cases (M : Matrix) (row col newValue : Z) :
  (exists log, updateElement M row col newValue = Ok (M, log)) \/
  ((0 <= row < Z.of_nat (height M))%Z /\ (0 <= col < Z.of_nat (width M))%Z).
Proof.
  unfold updateElement. case_bool_decide as HM; [eauto |].
  destruct (nonempty_width M HM) as (row0 & Hrow0 & Hw).
  rewrite (vat_lookup M 0 row0 Hrow0). cbn [bind].
  case_bool_decide; [eauto |]. rewrite Hw. unfold height.
  destruct ((row <? 0)%Z || (row >=? Z.of_nat (length M))%Z
            || (col <? 0)%Z || (col >=? Z.of_nat (width M))%Z) eqn:Hout; [eauto |].
  right. lia.
Qed.

(** The accepted update, as one store into the vector of rows. *)
Lemma updateElement_stores (M : Matrix) (row col newValue : Z) (r : list Z) :
  (0 <= row)%Z -> (0 <= col < Z.of_nat (width M))%Z ->
  M !! Z.to_nat row = Some r -> Z.to_nat col < length r ->
  updateElement M row col newValue
    = Ok (<[Z.to_nat row := <[Z.to_nat col := newValue]> r]> M, []).
Proof.
  intros Hrow Hcol Hr Hlen. unfold updateElement.
  pose proof (lookup_lt_Some _ _ _ Hr) as Hlt.
  assert (HMne : M <> []) by (intros ->; simpl in Hlt; lia).
  rewrite bool_decide_eq_false_2 by exact HMne.
  destruct (nonempty_width M HMne) as (row0 & Hrow0 & Hw).
  rewrite (vat_lookup M 0 row0 Hrow0). cbn [bind].
  rewrite bool_decide_eq_false_2 by (intros ->; simpl in Hw; lia).
  rewrite Hw. rewrite in_range_guard by lia.
  rewrite vatZ_nat, (vat_lookup M _ r Hr) by lia. cbn [bind].
  rewrite vsetZ_nat by lia. unfold vset at 1. rewrite decide_True by exact Hlen.
  cbn [bind]. rewrite vsetZ_nat by lia. unfold vset. rewrite decide_True by exact Hlt.
  reflexivity.
Qed.

Lemma shape_width (M : Matrix) (n w : nat) : shape M n w -> 0 < n -> width M = w.
Proof.
  intros [Hn Hrows] Hpos. destruct M as [|row0 M]; [simpl in Hn; lia |].
  simpl. inversion Hrows; assumption.
Qed.

Lemma mutators_shape_aux (M : Matrix) (n w : nat) :
  shape M n w ->
  (forall row1 row2,
     exists M' log, swapRows M row1 row2 = Ok (M', log) /\ shape M' n w) /\
  (forall col1 col2,
     exists M' log, swapCols M col1 col2 = Ok (M', log) /\ shape M' n w) /\
  (forall row col newValue,
     exists M' log, updateElement M row col newValue = Ok (M', log) /\ shape M' n w).
Proof.
  intros HM. split; [| split].
  - intros row1 row2.
    destruct (swapRows_cases M row1 row2) as [[log Hsame] | (H1 & H2 & Hne)]; [eauto |].
    destruct (lookup_lt_is_Some_2 M (Z.to_nat row1)) as [r1 Hr1]; [lia |].
    destruct (lookup_lt_is_Some_2 M (Z.to_nat row2)) as [r2 Hr2]; [lia |].
    eexists _, _. split; [apply (swapRows_swaps M row1 row2 r1 r2); (assumption || lia) |].
    pose proof (shape_row M n w _ _ HM Hr1). pose proof (shape_row M n w _ _ HM Hr2).
    destruct HM as [Hn Hrows].
    split; [rewrite !length_insert; exact Hn |].
    apply Forall_insert; [apply Forall_insert |]; assumption.
  - intros col1 col2.
    destruct (swapCols_cases M col1 col2) as [[log Hsame] | (H1 & H2 & Hne)]; [eauto |].
    assert (Hpos : 0 < n).
    { destruct HM as [<- _]. destruct M; simpl in *; lia. }
    pose proof (shape_width M n w HM Hpos) as Hw.
    assert (Hrect : rectangular M).
    { unfold rectangular, height. destruct HM as [Hn Hrows]. rewrite Hn, Hw.
      split; assumption. }
    eexists _, _. split; [apply swapCols_swaps; assumption |].
    destruct HM as [Hn Hrows]. split; [rewrite length_fmap; exact Hn |].
    apply Forall_fmap. eapply Forall_impl; [exact Hrows |].
    intros row Hrow. simpl. rewrite swapped_length. exact Hrow.
  - intros row col newValue.
    destruct (updateElement_cases M row col newValue) as [[log Hsame] | [H1 H2]]; [eauto |].
    unfold height in H1.
    destruct (lookup_lt_is_Some_2 M (Z.to_nat row)) as [r Hr]; [lia |].
    pose proof (shape_row M n w _ _ HM Hr) as Hlen.
    assert (Hpos : 0 < n) by (destruct HM as [<- _]; lia).
    pose proof (shape_width M n w HM Hpos) as Hw.
    eexists _, _.
    split; [apply (updateElement_stores M row col newValue r); (assumption || lia) |].
    destruct HM as [Hn Hrows]. split; [rewrite length_insert; exact Hn |].
    apply Forall_insert; [exact Hrows |]. rewrite length_insert. exact Hlen.
Qed.

(** The three mutators keep the dimensions.  On a matrix of [n] rows of
    [w] elements each, and whatever the indices and the value passed,
    [swapRows], [swapCols] and [updateElement] return without an access
    outside a vector and leave a matrix of [n] rows of [w] elements. *)
Theorem mutators_keep_shape (M : Matrix) (n w : nat) :
  shape M n w ->
  (forall row1 row2,
     exists M' log, swapRows M row1 row2 = Ok (M', log) /\ shape M' n w) /\
  (forall col1 col2,
     exists M' log, swapCols M col1 col2 = Ok (M', log) /\ shape M' n w) /\
  (forall row col newValue,
     exists M' log, updateElement M row col newValue = Ok (M', log) /\ shape M' n w).
Proof. apply mutators_shape_aux. Qed.

Lemma mutators_keep_shape_witness :
  (forall row1 row2,
     exists M' log, swapRows [[1; 2; 3]; [4; 5; 6]]%Z row1 row2 = Ok (M', log)
                    /\ shape M' 2 3) /\
  (forall col1 col2,
     exists M' log, swapCols [[1; 2; 3]; [4; 5; 6]]%Z col1 col2 = Ok (M', log)
                    /\ shape M' 2 3) /\
  (forall row col newValue,
     exists M' log,
       updateElement [[1; 2; 3]; [4; 5; 6]]%Z row col newValue = Ok (M', log)
       /\ shape M' 2 3).
Proof.
  apply (mutators_keep_shape [[1; 2; 3]; [4; 5; 6]]%Z 2 3).
  split; [reflexivity |]. repeat constructor.
Defined.

(** Two updates of the same element of a rectangular matrix, at a valid
    position, amount to the second one; and storing the value an element
    already has leaves the matrix as it is. *)
Theorem updateElement_overwrites (M : Matrix) (row col v1 v2 : Z) :
  rectangular M ->
  (0 <= row < Z.of_nat (height M))%Z -> (0 <= col < Z.of_nat (width M))%Z ->
  (exists M1, updateElement M row col v1 = Ok (M1, []) /\
              updateElement M1 row col v2 = updateElement M row col v2) /\
  (forall v, elem M (Z.to_nat row) (Z.to_nat col) = Some v ->
             updateElement M row col v = Ok (M, [])).
Proof.
  intros HM Hrow Hcol. unfold height in Hrow.
  destruct (lookup_lt_is_Some_2 M (Z.to_nat row)) as [r Hr]; [lia |].
  pose proof (shape_row M _ _ _ _ HM Hr) as Hlen.
  split.
  - rewrite !(updateElement_stores M row col _ r) by (assumption || lia).
    eexists. split; [reflexivity |].
    assert (Hw1 : width (<[Z.to_nat row := <[Z.to_nat col := v1]> r]> M) = width M).
    { destruct M as [|row0 M]; [reflexivity |].
      destruct (Z.to_nat row) as [|k] eqn:Hk; simpl in *.
      - injection Hr as ->. apply length_insert.
      - reflexivity. }
    rewrite (updateElement_stores _ row col v2 (<[Z.to_nat col := v1]> r)).
    + rewrite list_insert_insert_eq, list_insert_insert_eq. reflexivity.
    + lia.
    + rewrite Hw1. exact Hcol.
    + apply list_lookup_insert_eq. lia.
    + rewrite length_insert. lia.
  - unfold elem. rewrite Hr. intros v Hv.
    rewrite (updateElement_stores M row col v r) by (assumption || lia).
    rewrite (list_insert_id r _ _ Hv), (list_insert_id M _ _ Hr). reflexivity.
Qed.

Lemma updateElement_overwrites_witness :
  (exists M1, updateElement [[1; 2]; [3; 4]]%Z 1 0 7 = Ok (M1, []) /\
              updateElement M1 1 0 9 = updateElement [[1; 2]; [3; 4]]%Z 1 0 9) /\
  updateElement [[1; 2]; [3; 4]]%Z 1 0 3 = Ok ([[1; 2]; [3; 4]]%Z, []).
Proof.
  assert (H : rectangular [[1; 2]; [3; 4]]%Z)
    by (split; [reflexivity | repeat constructor]).
  pose proof (updateElement_overwrites [[1; 2]; [3; 4]]%Z 1 0 7 9 H
                ltac:(simpl; lia) ltac:(simpl; lia)) as [Htwice Hsame].
  split; [exact Htwice | apply Hsame; reflexivity].
Defined.

(** ** The loader: when it succeeds, when it fails, what it reports *)

Lemma read_element_fails (name : string) (n : nat) (s0 : ifstream) (i j : nat)
    (st : Matrix * ifstream) :
  i < n -> j < n ->
  reading n s0 (i * n + j) st ->
  post (read_element name i j st)
       (reading n s0 (i * n + S j))
       (reading_fails name n s0)
       False.
Proof.
  intros Hi Hj (vals & Htake & Hshape & Helems). unfold read_element.
  rewrite (mat_at_elem (fst st) i j (entry (fst st) i j))
    by (eapply shape_entry; eauto).
  cbn [bind].
  set (r := extract (snd st) (entry (fst st) i j)).
  destruct (mat_set_spec (E := Matrix * line) (fst st) n n i j (snd (fst r)) Hshape Hi Hj)
    as (matrix' & Hset & Hshape' & Hnew & Hframe).
  rewrite Hset. cbn [bind].
  destruct (fst (fst r)) eqn:Hflag; simpl.
  - pose proof (extract_flag _ _ Hflag) as Hr. fold r in Hr.
    apply extract_good in Hr as [Hs Hz].
    pose proof (proj1 (take_ints_Some _ _ _ _) Htake) as (_ & Hlen & _).
    exists (vals ++ [snd (fst r)]). simpl. split; [| split].
    + replace (i * n + S j) with (S (i * n + j)) by lia.
      eapply take_ints_step; eauto.
    + exact Hshape'.
    + intros i' j' Hi' Hj' Hidx.
      destruct (decide (i' * n + j' = i * n + j)) as [Heq | Hne].
      * destruct (index_inj n i j i' j' Hj Hj' Heq) as [-> ->].
        rewrite Hnew. symmetry. rewrite lookup_app_r by lia.
        rewrite Hlen, Nat.sub_diag. reflexivity.
      * rewrite Hframe by congruence. rewrite lookup_app_l by lia.
        apply Helems; [assumption | assumption | lia].
  - exists i, j. split; [exact Hi |]. split; [exact Hj |]. split; [| reflexivity].
    split; [eauto |]. eapply take_ints_stuck; [exact Htake | exact Hflag].
Qed.

Lemma read_loops_fail (name : string) (n : nat) (s0 : ifstream) (matrix : Matrix) :
  shape matrix n n ->
  post (for_ 0 n (fun i st => for_ 0 n (fun j st => read_element name i j st) st)
          (matrix, s0))
       (reading n s0 (n * n))
       (reading_fails name n s0)
       False.
Proof.
  intros Hshape.
  pose proof (for_post (fun i st => reading n s0 (i * n) st)
                (reading_fails name n s0) False
                (fun i st => for_ 0 n (fun j st => read_element name i j st) st)
                n 0 (matrix, s0)) as Hloop.
  simpl in Hloop. apply Hloop.
  - exists []. simpl. split; [reflexivity |]. split; [exact Hshape |]. intros; lia.
  - intros i st Hi Hst.
    pose proof (for_post (fun j st => reading n s0 (i * n + j) st)
                  (reading_fails name n s0) False
                  (fun j st => read_element name i j st) n 0 st) as Hrow.
    simpl in Hrow. replace (n + i * n) with (i * n + n) by lia. apply Hrow.
    + rewrite Nat.add_0_r. exact Hst.
    + intros j st' Hj Hst'. apply read_element_fails; [lia | lia | exact Hst'].
Qed.

Lemma loadMatrices_report (fs : string -> option ifstream) (filename : string)
    (n0 : Z) (n : nat) (s : ifstream) :
  fs filename = Some (Tnum (Z.of_nat n) :: s) -> 1 <= n -> is_int (Z.of_nat n) ->
  exists r, loadMatrices fs filename [] [] n0 = Ok r /\ load_report n s r.
Proof.
  intros Hfile Hpos Hz. unfold loadMatrices. rewrite Hfile.
  rewrite (proj2 (extract_good (Tnum (Z.of_nat n) :: s) n0 (Z.of_nat n) s)) by auto.
  cbn [fst snd negb orb]. destruct (Z.leb_spec (Z.of_nat n) 0) as [? | _]; [lia |].
  rewrite !vresize_nil, Nat2Z.id.
  pose proof (shape_replicate n n 0%Z) as Hzero.
  pose proof (read_loops_fail "A" n s _ Hzero) as HA.
  destruct (for_ 0 n _ (replicate n (replicate n 0%Z), s)) as [[A s1] | [A msg] |];
    simpl in HA; [| | contradiction].
  2:{ destruct HA as (i & j & Hi & Hj & Hstop & Hmsg). simpl in Hmsg. subst msg.
      eexists. split; [reflexivity |]. split; [reflexivity |]. simpl.
      left. exists i, j. auto. }
  destruct HA as (valsA & HtakeA & HshapeA & HelemA). simpl in HtakeA, HshapeA, HelemA.
  assert (HeA : forall i j, i < n -> j < n -> elem A i j = valsA !! (i * n + j)).
  { intros i j Hi Hj. apply HelemA; [assumption | assumption |].
    apply index_lt_square; assumption. }
  pose proof (read_loops_fail "B" n s1 _ Hzero) as HB.
  destruct (for_ 0 n _ (replicate n (replicate n 0%Z), s1)) as [[B s2] | [B msg] |];
    simpl in HB; [| | contradiction].
  2:{ destruct HB as (i & j & Hi & Hj & Hstop & Hmsg). simpl in Hmsg. subst msg.
      eexists. split; [reflexivity |]. split; [reflexivity |]. simpl.
      right. exists valsA, s1, i, j. auto 10. }
  destruct HB as (valsB & HtakeB & HshapeB & HelemB). simpl in HtakeB, HshapeB, HelemB.
  eexists. split; [reflexivity |]. split; [reflexivity |]. simpl.
  split; [reflexivity |]. exists valsA, s1, valsB, s2.
  repeat (split; [assumption |]).
  intros i j Hi Hj. apply HelemB; [assumption | assumption |].
  apply index_lt_square; assumption.
Qed.


Lemma stops_after_short (s : ifstream) (c d : nat) :
  stops_after s c -> c < d -> take_ints d s = None.
Proof. intros [_ Hc] Hlt. apply (take_ints_None_mono (S c)); [exact Hc | lia]. Qed.


Lemma loadMatrices_rejects_size_aux (fs : string -> option ifstream)
    (filename : string) (A B : Matrix) (n0 : Z) :
  (fs filename = None \/
   exists inFile, fs filename = Some inFile /\
     forall z rest, inFile = Tnum z :: rest -> ~ (1 <= z <= int_max)%Z) ->
  exists n msg, loadMatrices fs filename A B n0 = Ok (Loaded false A B n [cerr msg]).
Proof.
  intros [Hnone | (inFile & Hfile & Hbad)]; unfold loadMatrices.
  - rewrite Hnone. eauto.
  - rewrite Hfile. unfold extract.
    destruct inFile as [|[z|] rest]; cbn [fst snd negb orb]; [eauto | | eauto].
    specialize (Hbad z rest eq_refl). unfold int_min, int_max in *.
    destruct (Z.ltb_spec z (-2147483648)); cbn [fst snd negb orb]; [eauto |].
    destruct (Z.ltb_spec 2147483647 z); cbn [fst snd negb orb]; [eauto |].
    destruct (Z.leb_spec z 0); [eauto | lia].
Qed.

(** A file that cannot be opened, or whose first token is not an integer
    between 1 and [INT_MAX] (no token at all, text, zero, a negative or
    too large a number), makes [loadMatrices] return false with one line on
    [std::cerr]; the two matrices are left exactly as they were passed,
    whatever they hold. *)
Theorem loadMatrices_rejects_size (fs : string -> option ifstream)
    (filename : string) (A B : Matrix) (n0 : Z) :
  (fs filename = None \/
   exists inFile, fs filename = Some inFile /\
     forall z rest, inFile = Tnum z :: rest -> ~ (1 <= z <= int_max)%Z) ->
  exists n msg, loadMatrices fs filename A B n0 = Ok (Loaded false A B n [cerr msg]).
Proof. apply loadMatrices_rejects_size_aux. Qed.

Lemma loadMatrices_rejects_size_witness :
  exists n msg,
    loadMatrices (fun _ => Some [Tnum 0; Tnum 1; Tnum 2]) "m.txt" [[7]]%Z [] 5
      = Ok (Loaded false [[7]]%Z [] n [cerr msg]).
Proof.
  apply (loadMatrices_rejects_size (fun _ => Some [Tnum 0; Tnum 1; Tnum 2])).
  right. eexists. split; [reflexivity |].
  intros z rest [= <- _]. unfold int_max. lia.
Defined.

(** Called with empty matrices on a file that holds a size [n] between 1
    and [INT_MAX] followed by [2 * n * n] integers of type [int],
    [loadMatrices] returns true, writes nothing, stores [n], and leaves two
    [n] by [n] matrices holding the first and the second [n * n] integers
    row-major, whatever follows in the file. *)
Theorem loadMatrices_accepts (fs : string -> option ifstream) (filename : string)
    (n0 : Z) (n : nat) (valsA valsB : list Z) (rest : ifstream) :
  fs filename
    = Some (Tnum (Z.of_nat n) :: map Tnum valsA ++ map Tnum valsB ++ rest) ->
  1 <= n -> is_int (Z.of_nat n) ->
  length valsA = n * n -> length valsB = n * n ->
  Forall is_int valsA -> Forall is_int valsB ->
  exists A B,
    loadMatrices fs filename [] [] n0 = Ok (Loaded true A B (Z.of_nat n) []) /\
    shape A n n /\ shape B n n /\
    (forall i j, i < n -> j < n -> elem A i j = valsA !! (i * n + j)) /\
    (forall i j, i < n -> j < n -> elem B i j = valsB !! (i * n + j)).
Proof.
  intros Hfile Hpos Hz HlenA HlenB HintA HintB.
  destruct (loadMatrices_report fs filename n0 n _ Hfile Hpos Hz) as (r & Hrun & HN & Hr).
  assert (HtA : take_ints (n * n) (map Tnum valsA ++ map Tnum valsB ++ rest)
                = Some (valsA, map Tnum valsB ++ rest))
    by (apply take_ints_Some; auto).
  assert (HtB : take_ints (n * n) (map Tnum valsB ++ rest) = Some (valsB, rest))
    by (apply take_ints_Some; auto).
  destruct r as [ok A B N msgs]. simpl in *. subst N. destruct ok.
  - destruct Hr as (-> & vA & s1 & vB & s2 & HtA' & HtB' & HsA & HsB & HeA & HeB).
    rewrite HtA in HtA'. injection HtA' as <- <-.
    rewrite HtB in HtB'. injection HtB' as <- <-.
    exists A, B. auto.
  - exfalso. destruct Hr as [(i & j & Hi & Hj & Hstop & _)
                            | (vA & s1 & i & j & HtA' & _ & _ & Hi & Hj & Hstop & _)].
    + rewrite (stops_after_short _ _ (n * n) Hstop) in HtA by (apply index_lt_square; assumption).
      discriminate.
    + rewrite HtA in HtA'. injection HtA' as <- <-.
      rewrite (stops_after_short _ _ (n * n) Hstop) in HtB by (apply index_lt_square; assumption).
      discriminate.
Qed.

Lemma loadMatrices_accepts_witness :
  exists A B,
    loadMatrices (fun _ => Some (map Tnum [2; 1; 2; 3; 4; 5; 6; 7; 8]%Z ++ [Tword]))
      "m.txt" [] [] 0 = Ok (Loaded true A B 2 []) /\
    shape A 2 2 /\ shape B 2 2 /\
    (forall i j, i < 2 -> j < 2 -> elem A i j = [1; 2; 3; 4]%Z !! (i * 2 + j)) /\
    (forall i j, i < 2 -> j < 2 -> elem B i j = [5; 6; 7; 8]%Z !! (i * 2 + j)).
Proof.
  apply (loadMatrices_accepts
           (fun _ => Some (map Tnum [2; 1; 2; 3; 4; 5; 6; 7; 8]%Z ++ [Tword]))
           "m.txt" 0 2 [1; 2; 3; 4]%Z [5; 6; 7; 8]%Z [Tword]).
  - reflexivity.
  - lia.
  - unfold is_int, int_min, int_max. simpl. lia.
  - reflexivity.
  - reflexivity.
  - repeat constructor; unfold int_min, int_max; lia.
  - repeat constructor; unfold int_min, int_max; lia.
Defined.

Lemma loadMatrices_returns (fs : string -> option ifstream) (filename : string) (n0 : Z) :
  exists r, loadMatrices fs filename [] [] n0 = Ok r /\
    (if success r
     then messages r = [] /\ exists n, 0 < n /\ shape (loadedA r) n n /\ shape (loadedB r) n n
     else exists msg, messages r = [cerr msg]).
Proof.
  assert (Hrej : (fs filename = None \/
                  exists inFile, fs filename = Some inFile /\
                    forall z rest, inFile = Tnum z :: rest -> ~ (1 <= z <= int_max)%Z) ->
                 exists r, loadMatrices fs filename [] [] n0 = Ok r /\
                   (if success r
                    then messages r = [] /\
                         exists n, 0 < n /\ shape (loadedA r) n n /\ shape (loadedB r) n n
                    else exists msg, messages r = [cerr msg])).
  { intros H. destruct (loadMatrices_rejects_size_aux fs filename [] [] n0 H)
      as (n & msg & Hrun).
    rewrite Hrun. eexists. split; [reflexivity |]. simpl. eauto. }
  destruct (fs filename) as [inFile|] eqn:Hfile; [| apply Hrej; auto].
  destruct inFile as [|[z|] rest].
  - apply Hrej. right. eexists. split; [reflexivity |]. discriminate.
  - destruct (decide (1 <= z <= int_max)%Z) as [Hz | Hz].
    + assert (Hzn : z = Z.of_nat (Z.to_nat z)) by lia.
      rewrite Hzn in Hfile.
      destruct (loadMatrices_report fs filename n0 (Z.to_nat z) rest Hfile)
        as (r & Hrun & _ & Hr).
      { lia. }
      { unfold is_int, int_min. lia. }
      exists r. split; [exact Hrun |]. destruct (success r).
      * destruct Hr as (Hmsg & _ & _ & _ & _ & _ & _ & HsA & HsB & _).
        split; [exact Hmsg |]. exists (Z.to_nat z). split; [lia | auto].
      * destruct Hr as [(i & j & _ & _ & _ & ->)
                        | (vA & s1 & i & j & _ & _ & _ & _ & _ & _ & ->)];
          unfold read_error; eauto.
    + apply Hrej. right. eexists. split; [reflexivity |].
      intros z' rest' [= <- _]. exact Hz.
  - apply Hrej. right. eexists. split; [reflexivity |]. discriminate.
Qed.




(** ** Printing *)

Lemma for_split {E St} (body : nat -> St -> outcome E St) (a b : nat) :
  forall lo s,
    for_ lo (a + b) body s = bind (for_ lo a body s) (for_ (lo + a) b body).
Proof.
  induction a as [|a IH]; intros lo s; simpl.
  - rewrite Nat.add_0_r. reflexivity.
  - destruct (body lo s) as [s' | e |]; simpl; [| reflexivity | reflexivity].
    rewrite IH. replace (S lo + a) with (lo + S a) by lia. reflexivity.
Qed.

Lemma for_first_undefined {E St} (body : nat -> St -> outcome E St)
    (lo cnt : nat) (s : St) :
  0 < cnt -> body lo s = Undefined -> for_ lo cnt body s = Undefined.
Proof.
  intros Hcnt Hbody. destruct cnt as [|cnt]; [lia |]. simpl. rewrite Hbody. reflexivity.
Qed.

(** The inner loop of [printMatrix] collects the first [k] elements of the
    row, when the row has them. *)
Lemma print_row (M : Matrix) (i k : nat) (row : list Z) :
  M !! i = Some row -> k <= length row ->
  for_ (E := exn) 0 k (fun j cells =>
    let* x := mat_at M i j in Ok (cells ++ [x])) [] = Ok (take k row).
Proof.
  intros Hrow Hk.
  match goal with |- for_ 0 k ?body [] = _ =>
    destruct (for_ok (fun j cells => cells = take j row) body k 0 [])
      as (cells & Hrun & Hcells)
  end.
  - reflexivity.
  - intros j cells Hj ->.
    destruct (lookup_lt_is_Some_2 row j) as [x Hx]; [lia |].
    rewrite (mat_at_elem M i j x) by (unfold elem; rewrite Hrow; exact Hx).
    cbn [bind]. eexists. split; [reflexivity |].
    symmetry. apply take_S_r. exact Hx.
  - rewrite Hrun, Hcells. reflexivity.
Qed.

Lemma print_rows (M : Matrix) (n w : nat) (out : list event) :
  shape M n w -> n <= w ->
  for_ (E := exn) 0 n (fun i out =>
    let* cells :=
      for_ 0 n (fun j cells => let* x := mat_at M i j in Ok (cells ++ [x])) [] in
    Ok (out ++ [Fields 6 cells])) out
  = Ok (out ++ ((fun row => Fields 6 (take n row)) <$> M)).
Proof.
  intros HM Hnw.
  match goal with |- for_ 0 n ?body out = _ =>
    destruct (for_ok
      (fun i o => o = out ++ ((fun row => Fields 6 (take n row)) <$> take i M))
      body n 0 out) as (o & Hrun & Ho)
  end.
  - simpl. rewrite app_nil_r. reflexivity.
  - intros i o Hi ->.
    destruct (shape_lookup M n w i HM) as (row & Hrow & Hlen); [lia |].
    rewrite (print_row M i n row Hrow) by lia. cbn [bind].
    eexists. split; [reflexivity |].
    rewrite (take_S_r M i row Hrow), fmap_app, app_assoc. reflexivity.
  - rewrite Hrun, Ho. simpl. destruct HM as [Hn _].
    rewrite take_ge by lia. reflexivity.
Qed.

Lemma printMatrix_rows (M : Matrix) (label : string) (n w : nat) :
  shape M n w -> 1 <= n <= w ->
  printMatrix M label =
  Ok ([Line (cout [Str label])] ++ ((fun row => Fields 6 (take n row)) <$> M)
      ++ [Line (cout [])]).
Proof.
  intros HM Hnw. unfold printMatrix.
  destruct (shape_lookup M n w 0 HM) as (row0 & Hrow0 & Hlen); [lia |].
  rewrite bool_decide_eq_false_2 by (intros ->; discriminate).
  rewrite (vat_lookup M 0 row0 Hrow0). cbn [bind].
  rewrite bool_decide_eq_false_2 by (intros ->; simpl in Hlen; lia).
  pose proof HM as [Hn _]. rewrite Hn.
  rewrite (print_rows M n w _ HM) by lia. cbn [bind].
  rewrite <- app_assoc. reflexivity.
Qed.

Lemma printMatrix_empty (M : Matrix) (label : string) :
  M = [] \/ width M = 0 ->
  printMatrix M label =
  Ok [Line (cout [Str label]); Line (cout [Str "[Empty Matrix]"])].
Proof.
  intros H. unfold printMatrix. case_bool_decide as HM; [reflexivity |].
  destruct H as [H | H]; [contradiction |].
  destruct (nonempty_width M HM) as (row0 & Hrow0 & Hw).
  rewrite (vat_lookup M 0 row0 Hrow0). cbn [bind].
  rewrite bool_decide_eq_true_2; [reflexivity |].
  apply length_zero_iff_nil. lia.
Qed.

(** [printMatrix] writes the label, then either the placeholder (no row,
    or a first row without elements) or one line per row and an empty
    line.  Each printed row holds as many fields of width 6 as the matrix
    has rows: all the elements of the row when the matrix is square, only
    the first [height] of them when it is wider than high. *)
Theorem printMatrix_output (M : Matrix) (label : string) (n w : nat) :
  shape M n w ->
  (n = 0 \/ w = 0 ->
   printMatrix M label =
   Ok [Line (cout [Str label]); Line (cout [Str "[Empty Matrix]"])]) /\
  (1 <= n <= w ->
   printMatrix M label =
   Ok ([Line (cout [Str label])] ++ ((fun row => Fields 6 (take n row)) <$> M)
       ++ [Line (cout [])])) /\
  (1 <= n -> n = w ->
   printMatrix M label =
   Ok ([Line (cout [Str label])] ++ (Fields 6 <$> M) ++ [Line (cout [])])).
Proof.
  intros HM. split; [| split].
  - intros H. apply printMatrix_empty.
    destruct (decide (n = 0)) as [-> | Hn].
    + left. destruct HM as [HM _]. apply length_zero_iff_nil. exact HM.
    + right. destruct H as [? | ->]; [contradiction |].
      apply (shape_width M n 0 HM). lia.
  - intros Hnw. apply (printMatrix_rows M label n w HM Hnw).
  - intros Hn <-. rewrite (printMatrix_rows M label n n HM) by lia.
    do 2 f_equal. f_equal. apply Forall_fmap_ext_1.
    destruct HM as [_ Hrows]. eapply Forall_impl; [exact Hrows |].
    intros row Hrow. simpl in *. rewrite take_ge by lia. reflexivity.
Qed.

Lemma printMatrix_output_witness :
  printMatrix [[]; []] "M" =
    Ok [Line (cout [Str "M"]); Line (cout [Str "[Empty Matrix]"])] /\
  printMatrix [[1; 2; 3]; [4; 5; 6]]%Z "M" =
    Ok [Line (cout [Str "M"]); Fields 6 [1; 2]%Z; Fields 6 [4; 5]%Z; Line (cout [])] /\
  printMatrix [[1; 2]; [3; 4]]%Z "M" =
    Ok [Line (cout [Str "M"]); Fields 6 [1; 2]%Z; Fields 6 [3; 4]%Z; Line (cout [])].
Proof.
  split; [| split].
  - apply (printMatrix_output [[]; []] "M" 2 0).
    + split; [reflexivity |]. repeat constructor.
    + right. reflexivity.
  - apply (printMatrix_output [[1; 2; 3]; [4; 5; 6]]%Z "M" 2 3).
    + split; [reflexivity |]. repeat constructor.
    + lia.
  - apply (printMatrix_output [[1; 2]; [3; 4]]%Z "M" 2 2).
    + split; [reflexivity |]. repeat constructor.
    + lia.
    + reflexivity.
Defined.

(** A matrix with more rows than columns (and at least one column) makes
    [printMatrix] read outside the first row: the column loop runs up to
    the number of rows. *)
Theorem printMatrix_tall_reads_outside (M : Matrix) (label : string) (n w : nat) :
  shape M n w -> 1 <= w -> w < n -> printMatrix M label = Undefined.
Proof.
  intros HM Hw Hwn. unfold printMatrix.
  destruct (shape_lookup M n w 0 HM) as (row0 & Hrow0 & Hlen); [lia |].
  rewrite bool_decide_eq_false_2 by (intros ->; discriminate).
  rewrite (vat_lookup M 0 row0 Hrow0). cbn [bind].
  rewrite bool_decide_eq_false_2 by (intros ->; simpl in Hlen; lia).
  pose proof HM as [Hn _]. rewrite Hn.
  rewrite for_first_undefined; [reflexivity | lia |].
  replace n with (w + (n - w)) at 1 by lia.
  rewrite for_split. rewrite (print_row M 0 w row0 Hrow0) by lia. cbn [bind].
  rewrite for_first_undefined; [reflexivity | lia |].
  unfold mat_at. rewrite (vat_lookup M 0 row0 Hrow0). cbn [bind].
  unfold vat. rewrite lookup_ge_None_2 by lia. reflexivity.
Qed.

Lemma printMatrix_tall_reads_outside_witness :
  printMatrix [[1]; [2]]%Z "M" = Undefined.
Proof.
  apply (printMatrix_tall_reads_outside [[1]; [2]]%Z "M" 2 1).
  - split; [reflexivity |]. repeat constructor.
  - lia.
  - lia.
Defined.

(** ** The program *)

Lemma sumDiagonals_returns (M : Matrix) (n : nat) :
  shape M n n -> exists d, sumDiagonals M = Ok d.
Proof.
  intros HM. unfold sumDiagonals. case_bool_decide as HMne; [eauto |].
  destruct (nonempty_width M HMne) as (row0 & Hrow0 & Hw).
  rewrite (vat_lookup M 0 row0 Hrow0). cbn [bind].
  case_bool_decide; [eauto |].
  pose proof HM as [Hn _]. rewrite Hn.
  match goal with |- exists d, bind (for_ 0 n ?body ?init) _ = _ =>
    destruct (for_ok (fun _ _ => True) body n 0 init) as (sums & Hrun & _)
  end.
  - exact I.
  - intros i sums Hi _.
    destruct (shape_lookup M n n i HM) as (row & Hrow & Hlen); [lia |].
    rewrite (mat_at_elem M i i (entry M i i)) by (eapply shape_entry; eauto; lia).
    cbn [bind]. rewrite (vat_lookup M i row Hrow). cbn [bind].
    rewrite vatZ_nat by lia.
    destruct (lookup_lt_is_Some_2 row (Z.to_nat (Z.of_nat n - 1 - Z.of_nat i)))
      as [s Hs]; [lia |].
    rewrite (vat_lookup row _ s Hs). cbn [bind]. eauto.
  - rewrite Hrun. cbn [bind]. eauto.
Qed.

Lemma printMatrix_square (M : Matrix) (label : string) (n : nat) :
  shape M n n -> 0 < n -> printMatrix M label = Ok (printed label M).
Proof.
  intros HM Hn. rewrite (printMatrix_rows M label n n HM) by lia.
  unfold printed. do 2 f_equal. f_equal. apply Forall_fmap_ext_1.
  destruct HM as [_ Hrows]. eapply Forall_impl; [exact Hrows |].
  intros row Hrow. simpl in *. rewrite take_ge by lia. reflexivity.
Qed.

(** A run of [main] after a successful load of two [n] by [n] matrices:
    every operation returns, and the output is the sequence of the
    sections. *)
Lemma main_success_trace (fs : string -> option ifstream) (filename : string)
    (r : loaded) (n : nat) :
  loadMatrices fs filename [] [] 0 = Ok r -> success r = true -> messages r = [] ->
  0 < n -> shape (loadedA r) n n -> shape (loadedB r) n n ->
  exists S P d sr sc su,
    addMatrices (loadedA r) (loadedB r) = Ok S /\
    multiplyMatrices (loadedA r) (loadedB r) = Ok P /\
    sumDiagonals (loadedA r) = Ok d /\
    swapRows (loadedA r) 0 1 = Ok sr /\
    swapCols (loadedB r) 1 2 = Ok sc /\
    updateElement (loadedA r) 2 2 99 = Ok su /\
    main fs filename =
    Ok (0%Z,
        [Text "Enter the input filename: "; title "Matrices loaded"]
        ++ printed "Matrix A:" (loadedA r)
        ++ printed "Matrix B:" (loadedB r)
        ++ [title "Matrix Addition"] ++ printed "Result (A + B):" S
        ++ [title "Matrix Multiplication"] ++ printed "Result (A * B):" P
        ++ [title "Diagonal Sums (Matrix A)"] ++ map Line d
        ++ [title "Swapping Rows 0 and 1 of Matrix A"] ++ map Line (snd sr)
        ++ printed "Matrix A after row swap:" (fst sr)
        ++ [title "Swapping Columns 1 and 2 of Matrix B"] ++ map Line (snd sc)
        ++ printed "Matrix B after column swap:" (fst sc)
        ++ [title "Updating Element (2, 2) in Matrix A to 99"] ++ map Line (snd su)
        ++ printed "Matrix A after update:" (fst su)).
Proof.
  intros Hrun Htrue Hmsg Hn HsA HsB.
  assert (HAne : loadedA r <> []).
  { intros Heq. destruct HsA as [Hlen _]. rewrite Heq in Hlen. simpl in Hlen. lia. }
  destruct (addMatrices_agrees _ _ n HAne HsA HsB) as (S & HS & HsS & _).
  destruct (multiplyMatrices_agrees _ _ n n n HsA HsB Hn Hn) as (P & HP & HsP & _).
  destruct (sumDiagonals_returns _ n HsA) as (d & Hd).
  destruct (mutators_shape_aux _ n n HsA) as (HswapR & _ & Hupd).
  destruct (mutators_shape_aux _ n n HsB) as (_ & HswapC & _).
  destruct (HswapR 0%Z 1%Z) as (MR & logR & Hsr & HsR).
  destruct (HswapC 1%Z 2%Z) as (MC & logC & Hsc & HsC).
  destruct (Hupd 2%Z 2%Z 99%Z) as (MU & logU & Hsu & HsU).
  exists S, P, d, (MR, logR), (MC, logC), (MU, logU).
  repeat (split; [assumption |]).
  unfold main. cbv zeta. rewrite Hrun. cbn [bind]. rewrite Htrue, Hmsg. cbn [negb].
  rewrite (printMatrix_square _ _ n HsA Hn). cbn [bind].
  rewrite (printMatrix_square _ _ n HsB Hn). cbn [bind].
  rewrite HS. cbn [bind]. rewrite (printMatrix_square _ _ n HsS Hn). cbn [bind].
  rewrite HP. cbn [bind]. rewrite (printMatrix_square _ _ n HsP Hn). cbn [bind].
  rewrite Hd. cbn [bind].
  rewrite Hsr. cbn [bind fst snd]. rewrite (printMatrix_square _ _ n HsR Hn). cbn [bind].
  rewrite Hsc. cbn [bind fst snd]. rewrite (printMatrix_square _ _ n HsC Hn). cbn [bind].
  rewrite Hsu. cbn [bind fst snd]. rewrite (printMatrix_square _ _ n HsU Hn). cbn [bind].
  unfold title. simpl map. rewrite <- !app_assoc. reflexivity.
Qed.


(** After a successful load, [main] writes its sections in order, and each
    operation is applied to the matrices as loaded: the sum and the product
    are those of [A] and [B], the rows are swapped in a copy of [A], the
    columns in a copy of [B], and the element is updated in another copy of
    [A], not in the copy whose rows were swapped.  A rejected swap or
    update writes its diagnostic and the run goes on. *)
Theorem main_success_output (fs : string -> option ifstream) (filename : string)
    (r : loaded) :
  loadMatrices fs filename [] [] 0 = Ok r -> success r = true ->
  exists S P d sr sc su,
    addMatrices (loadedA r) (loadedB r) = Ok S /\
    multiplyMatrices (loadedA r) (loadedB r) = Ok P /\
    sumDiagonals (loadedA r) = Ok d /\
    swapRows (loadedA r) 0 1 = Ok sr /\
    swapCols (loadedB r) 1 2 = Ok sc /\
    updateElement (loadedA r) 2 2 99 = Ok su /\
    main fs filename =
    Ok (0%Z,
        [Text "Enter the input filename: "; title "Matrices loaded"]
        ++ printed "Matrix A:" (loadedA r)
        ++ printed "Matrix B:" (loadedB r)
        ++ [title "Matrix Addition"] ++ printed "Result (A + B):" S
        ++ [title "Matrix Multiplication"] ++ printed "Result (A * B):" P
        ++ [title "Diagonal Sums (Matrix A)"] ++ map Line d
        ++ [title "Swapping Rows 0 and 1 of Matrix A"] ++ map Line (snd sr)
        ++ printed "Matrix A after row swap:" (fst sr)
        ++ [title "Swapping Columns 1 and 2 of Matrix B"] ++ map Line (snd sc)
        ++ printed "Matrix B after column swap:" (fst sc)
        ++ [title "Updating Element (2, 2) in Matrix A to 99"] ++ map Line (snd su)
        ++ printed "Matrix A after update:" (fst su)).
Proof.
  intros Hrun Hok.
  destruct (loadMatrices_returns fs filename 0) as (r' & Hrun' & Hr).
  rewrite Hrun in Hrun'. injection Hrun' as <-. rewrite Hok in Hr.
  destruct Hr as (Hmsg & n & Hn & HsA & HsB).
  exact (main_success_trace fs filename r n Hrun Hok Hmsg Hn HsA HsB).
Qed.

Lemma main_success_output_witness :
  exists S P d sr sc su,
    addMatrices [[1; 2]; [3; 4]]%Z [[5; 6]; [7; 8]]%Z = Ok S /\
    multiplyMatrices [[1; 2]; [3; 4]]%Z [[5; 6]; [7; 8]]%Z = Ok P /\
    sumDiagonals [[1; 2]; [3; 4]]%Z = Ok d /\
    swapRows [[1; 2]; [3; 4]]%Z 0 1 = Ok sr /\
    swapCols [[5; 6]; [7; 8]]%Z 1 2 = Ok sc /\
    updateElement [[1; 2]; [3; 4]]%Z 2 2 99 = Ok su /\
    main (fun _ => Some (map Tnum [2; 1; 2; 3; 4; 5; 6; 7; 8]%Z)) "m.txt" =
    Ok (0%Z,
        [Text "Enter the input filename: "; title "Matrices loaded"]
        ++ printed "Matrix A:" [[1; 2]; [3; 4]]%Z
        ++ printed "Matrix B:" [[5; 6]; [7; 8]]%Z
        ++ [title "Matrix Addition"] ++ printed "Result (A + B):" S
        ++ [title "Matrix Multiplication"] ++ printed "Result (A * B):" P
        ++ [title "Diagonal Sums (Matrix A)"] ++ map Line d
        ++ [title "Swapping Rows 0 and 1 of Matrix A"] ++ map Line (snd sr)
        ++ printed "Matrix A after row swap:" (fst sr)
        ++ [title "Swapping Columns 1 and 2 of Matrix B"] ++ map Line (snd sc)
        ++ printed "Matrix B after column swap:" (fst sc)
        ++ [title "Updating Element (2, 2) in Matrix A to 99"] ++ map Line (snd su)
        ++ printed "Matrix A after update:" (fst su)).
Proof.
  apply (main_success_output
           (fun _ => Some (map Tnum [2; 1; 2; 3; 4; 5; 6; 7; 8]%Z)) "m.txt"
           (Loaded true [[1; 2]; [3; 4]]%Z [[5; 6]; [7; 8]]%Z 2 [])).
  - reflexivity.
  - reflexivity.
Defined.

(** ** Addition beyond square matrices, and its algebra *)

Section add_block.
Variables (A B : Matrix) (n w : nat).
Hypothesis HA : shape A n w.
Hypothesis HB : shape B n w.

(** The column loop of [addMatrices] in row [i], run over the first [k]
    columns, for [k] within the result and within the rows. *)
Lemma add_cols (i k : nat) (result : Matrix) :
  i < n -> k <= n -> k <= w ->
  agrees result n n (filled A B i 0) ->
  exists result',
    for_ (E := exn) 0 k (fun j result =>
      let* a := mat_at A i j in
      let* b := mat_at B i j in
      mat_set result i j (int_add a b)) result = Ok result' /\
    agrees result' n n (filled A B i k).
Proof.
  intros Hi Hkn Hkw Hres.
  match goal with |- exists r, for_ 0 k ?body result = _ /\ _ =>
    destruct (for_ok (fun j r => agrees r n n (filled A B i j)) body k 0 result)
      as (result' & Hrun & Hpost)
  end.
  - exact Hres.
  - intros j r Hj Hr.
    rewrite (mat_at_elem A i j (entry A i j)) by (eapply shape_entry; eauto; lia).
    rewrite (mat_at_elem B i j (entry B i j)) by (eapply shape_entry; eauto; lia).
    cbn [bind].
    eapply agrees_set; [exact Hr | exact Hi | lia | |].
    + unfold filled. rewrite decide_True by lia. reflexivity.
    + intros i' j' _ _ Hne. unfold filled.
      repeat case_decide; try reflexivity; try lia.
      exfalso. apply Hne. f_equal; lia.
  - exists result'. split; [exact Hrun | exact Hpost].
Qed.

Lemma add_block_rows :
  n <= w ->
  exists result',
    for_ (E := exn) 0 n (fun i result =>
      for_ (E := exn) 0 n (fun j result =>
        let* a := mat_at A i j in
        let* b := mat_at B i j in
        mat_set result i j (int_add a b)) result)
      (replicate n (replicate n 0%Z)) = Ok result' /\
    agrees result' n n (fun i j => int_add (entry A i j) (entry B i j)).
Proof.
  intros Hnw.
  match goal with |- exists r, for_ 0 n ?body ?init = _ /\ _ =>
    destruct (for_ok (fun i r => agrees r n n (filled A B i 0)) body n 0 init)
      as (result' & Hrun & Hpost)
  end.
  - split; [apply shape_replicate |]. intros i j Hi Hj.
    rewrite elem_replicate by assumption. unfold filled.
    rewrite decide_False by lia. reflexivity.
  - intros i r Hi Hr.
    destruct (add_cols i n r) as (r' & Hrun & Hr'); [lia | lia | exact Hnw | exact Hr |].
    exists r'. split; [exact Hrun |].
    eapply agrees_ext; [exact Hr' |]. intros i' j' _ Hj'.
    unfold filled. repeat case_decide; try reflexivity; lia.
  - exists result'. split; [exact Hrun |].
    eapply agrees_ext; [exact Hpost |]. intros i' j' Hi' _. simpl.
    unfold filled. rewrite decide_True by lia. reflexivity.
Qed.

Lemma add_block_outside :
  1 <= w -> w < n ->
  for_ (E := exn) 0 n (fun i result =>
    for_ (E := exn) 0 n (fun j result =>
      let* a := mat_at A i j in
      let* b := mat_at B i j in
      mat_set result i j (int_add a b)) result)
    (replicate n (replicate n 0%Z)) = Undefined.
Proof.
  intros Hw Hwn.
  rewrite for_first_undefined; [reflexivity | lia |].
  replace n with (w + (n - w)) at 1 by lia. rewrite for_split.
  destruct (add_cols 0 w (replicate n (replicate n 0%Z))) as (r & -> & _);
    [lia | lia | lia | |].
  { split; [apply shape_replicate |]. intros i j Hi Hj.
    rewrite elem_replicate by assumption. unfold filled.
    rewrite decide_False by lia. reflexivity. }
  cbn [bind]. rewrite for_first_undefined; [reflexivity | lia |].
  destruct (shape_lookup A n w 0 HA) as (a0 & Ha0 & Hlen); [lia |].
  unfold mat_at at 1. rewrite (vat_lookup A 0 a0 Ha0). cbn [bind].
  unfold vat at 1. rewrite lookup_ge_None_2 by lia. reflexivity.
Qed.
End add_block.

Lemma addMatrices_guard (A B : Matrix) (n w : nat) :
  shape A n w -> shape B n w -> 1 <= n ->
  addMatrices A B =
  for_ 0 n (fun i result =>
    for_ 0 n (fun j result =>
      let* a := mat_at A i j in
      let* b := mat_at B i j in
      mat_set result i j (int_add a b)) result)
    (replicate n (replicate n 0%Z)).
Proof.
  intros HA HB Hn. unfold addMatrices.
  destruct (shape_lookup A n w 0 HA) as (a0 & Ha0 & Hla); [lia |].
  destruct (shape_lookup B n w 0 HB) as (b0 & Hb0 & Hlb); [lia |].
  destruct HA as [HnA _], HB as [HnB _].
  rewrite bool_decide_eq_false_2 by (intros ->; discriminate).
  rewrite bool_decide_eq_false_2 by lia.
  rewrite (vat_lookup A 0 a0 Ha0), (vat_lookup B 0 b0 Hb0). cbn [bind].
  rewrite bool_decide_eq_false_2 by lia. rewrite HnA. reflexivity.
Qed.

(** [addMatrices] on two matrices of the same dimensions, [n] rows of [w]
    elements, that are not square.  When they are wider than high it
    returns an [n] by [n] matrix: the sums of the first [n] columns, the
    other columns are dropped.  When they are higher than wide it reads
    outside the first row. *)
Theorem addMatrices_not_square (A B : Matrix) (n w : nat) :
  shape A n w -> shape B n w -> 1 <= n -> 1 <= w ->
  (n <= w ->
   exists C, addMatrices A B = Ok C /\ shape C n n /\
     forall i j, i < n -> j < n ->
       elem C i j = Some (int_add (entry A i j) (entry B i j))) /\
  (w < n -> addMatrices A B = Undefined).
Proof.
  intros HA HB Hn Hw. rewrite (addMatrices_guard A B n w HA HB Hn). split.
  - intros Hnw. destruct (add_block_rows A B n w HA HB Hnw) as (C & -> & HC & Hval).
    eauto.
  - intros Hwn. apply (add_block_outside A B n w HA HB Hw Hwn).
Qed.

Lemma addMatrices_not_square_witness :
  (exists C, addMatrices [[1; 2; 3]; [4; 5; 6]]%Z [[10; 20; 30]; [40; 50; 60]]%Z = Ok C /\
     shape C 2 2 /\
     forall i j, i < 2 -> j < 2 ->
       elem C i j = Some (int_add (entry [[1; 2; 3]; [4; 5; 6]]%Z i j)
                                  (entry [[10; 20; 30]; [40; 50; 60]]%Z i j))) /\
  addMatrices [[1]; [2]]%Z [[3]; [4]]%Z = Undefined.
Proof.
  split.
  - apply (addMatrices_not_square [[1; 2; 3]; [4; 5; 6]]%Z
             [[10; 20; 30]; [40; 50; 60]]%Z 2 3);
      try lia; split; try reflexivity; repeat constructor.
  - apply (addMatrices_not_square [[1]; [2]]%Z [[3]; [4]]%Z 2 1);
      try lia; split; try reflexivity; repeat constructor.
Defined.

(** Addition of square matrices of the same size is associative, overflow
    included: adding [C] to the sum of [A] and [B] gives the same matrix as
    adding the sum of [B] and [C] to [A]. *)
Theorem addMatrices_assoc (A B C : Matrix) (n : nat) :
  1 <= n -> shape A n n -> shape B n n -> shape C n n ->
  exists AB BC ABC,
    addMatrices A B = Ok AB /\ addMatrices B C = Ok BC /\
    addMatrices AB C = Ok ABC /\ addMatrices A BC = Ok ABC.
Proof.
  intros Hn HA HB HC.
  assert (Hne : forall M : Matrix, shape M n n -> M <> []).
  { intros M [Hlen _] ->. simpl in Hlen. lia. }
  destruct (addMatrices_agrees A B n (Hne A HA) HA HB) as (AB & HAB & HsAB & HvAB).
  destruct (addMatrices_agrees B C n (Hne B HB) HB HC) as (BC & HBC & HsBC & HvBC).
  destruct (addMatrices_agrees AB C n (Hne AB HsAB) HsAB HC) as (L & HL & HsL & HvL).
  destruct (addMatrices_agrees A BC n (Hne A HA) HA HsBC) as (R & HR & HsR & HvR).
  exists AB, BC, L. repeat (split; [assumption |]).
  rewrite HR. f_equal. eapply shape_ext; [exact HsR | exact HsL |].
  intros i j Hi Hj. rewrite HvR, HvL by assumption. f_equal.
  rewrite (elem_entry AB i j _ (HvAB i j Hi Hj)).
  rewrite (elem_entry BC i j _ (HvBC i j Hi Hj)).
  unfold int_add. rewrite wrap_int_add_l, wrap_int_add_r. f_equal. lia.
Qed.

Lemma addMatrices_assoc_witness :
  exists AB BC ABC,
    addMatrices [[2147483647]]%Z [[1]]%Z = Ok AB /\
    addMatrices [[1]]%Z [[-5]]%Z = Ok BC /\
    addMatrices AB [[-5]]%Z = Ok ABC /\
    addMatrices [[2147483647]]%Z BC = Ok ABC.
Proof.
  apply (addMatrices_assoc [[2147483647]]%Z [[1]]%Z [[-5]]%Z 1);
    try lia; split; try reflexivity; repeat constructor.
Defined.

(** ** Sanity checks on concrete inputs *)

Example add_2x2 :
  addMatrices [[1; 2]; [3; 4]]%Z [[5; 6]; [7; 8]]%Z = Ok [[6; 8]; [10; 12]]%Z.
Proof. reflexivity. Qed.

Example multiply_2x2 :
  multiplyMatrices [[1; 2]; [3; 4]]%Z [[5; 6]; [7; 8]]%Z = Ok [[19; 22]; [43; 50]]%Z.
Proof. reflexivity. Qed.

Example sumDiagonals_2x2 :
  sumDiagonals [[1; 2]; [3; 4]]%Z =
  Ok [cout [Str "Sum of main diagonal elements: "; Int 5];
      cout [Str "Sum of secondary diagonal elements: "; Int 5]].
Proof. reflexivity. Qed.

Example swapRows_1x1_out :
  exists msg, swapRows [[7]]%Z 0 1 = Ok ([[7]]%Z, [cerr msg]).
Proof. eexists. reflexivity. Qed.

Example swapCols_3x3 :
  swapCols [[1; 2; 3]; [4; 5; 6]; [7; 8; 9]]%Z 1 2 =
  Ok ([[1; 3; 2]; [4; 6; 5]; [7; 9; 8]]%Z, []).
Proof. reflexivity. Qed.

Example load_2x2 :
  loadMatrices (fun _ => Some (map Tnum [2; 1; 2; 3; 4; 5; 6; 7; 8]%Z)) "m.txt" [] [] 0 =
  Ok (Loaded true [[1; 2]; [3; 4]]%Z [[5; 6]; [7; 8]]%Z 2 []).
Proof. reflexivity. Qed.

Example printMatrix_2x2 :
  printMatrix [[1; 2]; [3; 4]]%Z "Matrix A:" =
  Ok [Line (cout [Str "Matrix A:"]); Fields 6 [1; 2]%Z; Fields 6 [3; 4]%Z;
      Line (cout [])].
Proof. reflexivity. Qed.

Example main_missing_file :
  main (fun _ => None) "m.txt" =
  Ok (1%Z, [Text "Enter the input filename: ";
            Line (cerr [Str "Error: Could not open file "; Str "m.txt"]);
            Line (cerr [Str "Error loading matrices from file: "; Str "m.txt"])]).
Proof. reflexivity. Qed.

Example main_1x1 :
  exists out, main (fun _ => Some (map Tnum [1; 5; 6]%Z)) "m.txt" = Ok (0%Z, out).
Proof. eexists. reflexivity. Qed.
